(** * CartContext: the shopping-cart provider of the storefront client

    A shallow embedding of [client/src/context/CartContext.jsx] and of the
    parts of the JavaScript host the component calls: IEEE binary64 numbers
    with [Number.prototype.toString] and [Number.prototype.toFixed], the
    coercions behind [+] and [*], [JSON.parse], [JSON.stringify] and the
    [localStorage] entry stored under the key [cartItems].

    Layout:
    - [Number]      host numbers and their conversions to and from text;
    - [Js]          host values, property access, coercions, operators;
    - [JSON]        [JSON.parse] and [JSON.stringify];
    - [Cart]        the component's functions on carts of well-formed line
                    items (the data model of the specification);
    - [Raw]         the same functions on arbitrary host values, as the
                    script runs them on whatever [JSON.parse] returned;
    - [Provider]    the provider's state, its two effects and its handlers
                    as a transition system with a storage trace;
    - the theorems, one section per property. *)

From Stdlib Require Import ZArith NArith QArith Qround Qabs Qpower Floats.
From Stdlib Require Import String Ascii List Bool Lia.
From stdpp Require Import base decidable option list.
Import ListNotations.

#[local] Set Warnings "-register-all,-inexact-float".
#[local] Open Scope Z_scope.

(** JavaScript strings are sequences of 16-bit code units. *)
Abbreviation jsstring := (list N).

(** The code units of an ASCII literal. *)
Definition js (s : string) : jsstring := map N_of_ascii (list_ascii_of_string s).

(** The same, reading each apostrophe as a quotation mark, so that JSON
    texts can be written down as literals. *)
Definition json_text (s : string) : jsstring :=
  map (fun c => if (c =? 39)%N then 34%N else c) (js s).

(** ** Host numbers *)

Module Number.

(** The binary64 number nearest to a rational, ties to even. The quotient
    is taken with 66 significant bits or more and a sticky last bit;
    [binary_normalize] then rounds it to 53 bits, with overflow to an
    infinity and gradual underflow. *)
Definition round_Q (q : Q) : float :=
  let num := Z.abs (Qnum q) in
  let den := Zpos (Qden q) in
  if num =? 0 then PrimFloat.zero
  else
    let k := Z.max 0 (66 + Z.log2 den - Z.log2 num) in
    let scaled := num * 2 ^ k in
    let quo := scaled / den in
    let sticky := if scaled mod den =? 0 then 0 else 1 in
    let mant := 2 * quo + sticky in
    let signed := if Qnum q <? 0 then - mant else mant in
    SF2Prim (binary_normalize prec emax signed (- k - 1) false).

(** The real value of the finite number with mantissa [m] and exponent
    [e], sign apart. *)
Definition value (m : positive) (e : Z) : Q := inject_Z (Zpos m) * (2 # 1) ^ e.

Definition pow10 (n : Z) : Q := (10 # 1) ^ n.

(** The code unit of a decimal digit. *)
Definition digit (d : Z) : N := Z.to_N (48 + d).

(** Decimal digits of a natural number, most significant first. A number
    has no more decimal digits than binary ones, which bounds the
    recursion. *)
Fixpoint digits_of (fuel : nat) (n : Z) : jsstring :=
  match fuel with
  | O => []
  | S fuel =>
      (if n <? 10 then [] else digits_of fuel (n / 10)) ++ [digit (n mod 10)]
  end.

Definition digits (n : Z) : jsstring := digits_of (S (Z.to_nat (Z.log2 n))) n.

Definition zeros (n : Z) : jsstring := repeat 48%N (Z.to_nat n).

(** The least [n] with [q < 10^n], searched upwards from an estimate that
    is at most three below it. *)
Fixpoint bump (fuel : nat) (q : Q) (n : Z) : Z :=
  match fuel with
  | O => n
  | S fuel => if Qle_bool (pow10 n) q then bump fuel q (n + 1) else n
  end.

Definition magnitude (m : positive) (e : Z) : Z :=
  bump 4 (value m e) ((Z.log2 (Zpos m) + e) * 30103 / 100000 - 1).

(** Number::toString, step 5: integers [n], [k], [s] with [k] digits in
    [s], [s * 10^(n-k)] rounding to [x], [k] as small as possible and,
    among those, [s * 10^(n-k)] nearest to [x] ([s] even on a tie). *)
Record candidate := { cand_n : Z; cand_s : Z; cand_err : Q }.

Definition candidates (x : float) (q : Q) (k n : Z) : list candidate :=
  let scale := pow10 (n - k) in
  let lo := Qfloor (q / scale) in
  List.filter
    (fun c => (10 ^ (k - 1) <=? cand_s c) && (cand_s c <? 10 ^ k)
              && PrimFloat.eqb (round_Q (inject_Z (cand_s c) * scale)) x)
    (map (fun s => {| cand_n := n; cand_s := s;
                      cand_err := Qabs (inject_Z s * scale - q) |})
         [lo; lo + 1]).

Definition better (c d : candidate) : candidate :=
  match Qcompare (cand_err d) (cand_err c) with
  | Lt => d
  | Eq => if Z.even (cand_s d) then d else c
  | Gt => c
  end.

Definition best (cs : list candidate) : option candidate :=
  match cs with
  | [] => None
  | c :: cs => Some (fold_left better cs c)
  end.

(** The candidate with the fewest digits that reads back as [x], the
    nearest to [x] among those: tried for 1, 2, ... digits. Seventeen
    digits tell any two host numbers apart, so that the search ends within
    the fuel [toString] gives it. *)
Fixpoint shortest (fuel : nat) (x : float) (q : Q) (n0 k : Z) : candidate :=
  match fuel with
  | O => {| cand_n := n0; cand_s := 0; cand_err := 0 |}
  | S fuel =>
      match best (flat_map (candidates x q k) [n0 - 1; n0; n0 + 1]) with
      | Some c => c
      | None => shortest fuel x q n0 (k + 1)
      end
  end.

(** Number::toString, steps 6 to 10: plain decimal notation when
    [-5 <= n <= 21], exponent notation otherwise. *)
Definition render (n s : Z) : jsstring :=
  let ds := digits s in
  let k := Z.of_nat (length ds) in
  if (-5 <=? n) && (n <=? 21) then
    if k <=? n then ds ++ zeros (n - k)
    else if 0 <? n then firstn (Z.to_nat n) ds ++ js "." ++ skipn (Z.to_nat n) ds
    else js "0." ++ zeros (- n) ++ ds
  else
    let e := n - 1 in
    let sign := if e <? 0 then js "-" else js "+" in
    let mant := if k =? 1 then ds else firstn 1 ds ++ js "." ++ skipn 1 ds in
    mant ++ js "e" ++ sign ++ digits (Z.abs e).

(** [Number::toString(x)] in radix 10. *)
Definition toString (x : float) : jsstring :=
  match Prim2SF x with
  | S754_nan => js "NaN"
  | S754_zero _ => js "0"
  | S754_infinity s => if s then js "-Infinity" else js "Infinity"
  | S754_finite s m e =>
      let c := shortest 17 (abs x) (value m e) (magnitude m e) 1 in
      (if s then js "-" else []) ++ render (cand_n c) (cand_s c)
  end.

(** The integer [n] for which [n / 10^f] is nearest to [q], the larger
    one when two are equally near. *)
Definition nearest (q : Q) (f : Z) : Z := Qfloor (q * pow10 f + (1 # 2)).

(** The digits of [n] with a point before the last [f] of them, padded
    with zeros on the left to [f + 1] digits. *)
Definition fixed (n f : Z) : jsstring :=
  let ds := digits n in
  let ds := zeros (f + 1 - Z.of_nat (length ds)) ++ ds in
  let k := Z.of_nat (length ds) in
  if f =? 0 then ds
  else firstn (Z.to_nat (k - f)) ds ++ js "." ++ skipn (Z.to_nat (k - f)) ds.

(** [Number.prototype.toFixed(f)]: a number that is not finite, or whose
    magnitude is [10^21] or more, is printed by [toString]. *)
Definition toFixed (x : float) (f : Z) : jsstring :=
  match Prim2SF x with
  | S754_finite s m e =>
      if Qle_bool (pow10 21) (value m e) then toString x
      else (if s then js "-" else []) ++ fixed (nearest (value m e) f) f
  | S754_zero _ => fixed 0 f
  | _ => toString x
  end.

End Number.

(** ** Host values *)

Module Js.

(** The values [JSON.parse] can build, and [undefined]. An object is the
    list of its own properties in enumeration order. *)
Inductive value :=
| VUndefined
| VNull
| VBool (b : bool)
| VNumber (x : float)
| VString (s : jsstring)
| VArray (elems : list value)
| VObject (props : list (jsstring * value)).

Inductive error := TypeError | SyntaxError.

(** The outcome of evaluating an expression: a value, or an exception. *)
Inductive completion (A : Type) :=
| Normal (a : A)
| Throw (e : error).
Arguments Normal {A} a.
Arguments Throw {A} e.

#[export] Instance completion_ret : MRet completion := @Normal.
#[export] Instance completion_bind : MBind completion :=
  fun A B f c => match c with Normal a => f a | Throw e => Throw e end.
#[export] Instance completion_fmap : FMap completion :=
  fun A B f c => match c with Normal a => Normal (f a) | Throw e => Throw e end.

(** *** Characters *)

Definition is_digit (c : N) : bool := ((48 <=? c) && (c <=? 57))%N.

Definition hex_val (c : N) : option Z :=
  if is_digit c then Some (Z.of_N c - 48)
  else if ((97 <=? c) && (c <=? 102))%N then Some (Z.of_N c - 87)
  else if ((65 <=? c) && (c <=? 70))%N then Some (Z.of_N c - 55)
  else None.

(** The longest prefix of digits, and what follows it. *)
Fixpoint span_digits (s : jsstring) : jsstring * jsstring :=
  match s with
  | c :: r =>
      if is_digit c then let '(ds, r') := span_digits r in (c :: ds, r')
      else ([], s)
  | [] => ([], [])
  end.

(** The number written by a string of digits in the given radix, or
    nothing when a character is not a digit of that radix. *)
Definition radix_val (radix : Z) (s : jsstring) : option Z :=
  fold_left
    (fun acc c =>
       match acc, hex_val c with
       | Some n, Some d => if d <? radix then Some (n * radix + d) else None
       | _, _ => None
       end)
    s (Some 0).

Definition nat_val (ds : jsstring) : Z := default 0 (radix_val 10 ds).

(** The number nearest to [(-1)^neg * int.frac * 10^exp]. *)
Definition decimal (neg : bool) (int frac : jsstring) (exp : Z) : float :=
  let mant := nat_val (int ++ frac) in
  let x := Number.round_Q
             (inject_Z mant * Number.pow10 (exp - Z.of_nat (length frac))) in
  if neg then PrimFloat.opp x else x.

(** An exponent part, [e] or [E], an optional sign and one digit or more,
    ending the text; no exponent part when the text is empty. *)
Definition exponent (s : jsstring) : option Z :=
  match s with
  | [] => Some 0
  | c :: r =>
      if ((c =? 101) || (c =? 69))%N then
        let '(neg, r) :=
          match r with
          | 45%N :: r' => (true, r')
          | 43%N :: r' => (false, r')
          | _ => (false, r)
          end in
        match span_digits r with
        | ([], _) | (_, _ :: _) => None
        | (ds, []) => Some (if neg then - nat_val ds else nat_val ds)
        end
      else None
  end.

(** *** Property access *)

Fixpoint lookup_prop (key : jsstring) (props : list (jsstring * value)) : value :=
  match props with
  | [] => VUndefined
  | (k, v) :: props => if bool_decide (k = key) then v else lookup_prop key props
  end.

(** [v.key], for a [key] that is neither an array index nor [length] and
    that no built-in prototype defines: reading it off [null] or
    [undefined] throws, an object answers with its own property, any
    other value has none. *)
Definition Get (v : value) (key : jsstring) : completion value :=
  match v with
  | VUndefined | VNull => Throw TypeError
  | VObject props => Normal (lookup_prop key props)
  | _ => Normal VUndefined
  end.

(** A canonical array index: the decimal text, without leading zeros, of
    an integer below [2^32 - 1]. *)
Definition array_index (key : jsstring) : option Z :=
  match key with
  | [] => None
  | c :: r =>
      if forallb is_digit key && (negb (c =? 48)%N || bool_decide (r = []))
      then let n := nat_val key in if n <? 2 ^ 32 - 1 then Some n else None
      else None
  end.

(** A new index property goes before every larger index and every
    property with another name; a new property of another name goes last. *)
Fixpoint insert_index (i : Z) (key : jsstring) (v : value)
    (props : list (jsstring * value)) : list (jsstring * value) :=
  match props with
  | [] => [(key, v)]
  | (k, w) :: rest =>
      match array_index k with
      | Some j => if j <? i then (k, w) :: insert_index i key v rest
                  else (key, v) :: props
      | None => (key, v) :: props
      end
  end.

Fixpoint replace_prop (key : jsstring) (v : value)
    (props : list (jsstring * value)) : option (list (jsstring * value)) :=
  match props with
  | [] => None
  | (k, w) :: rest =>
      if bool_decide (k = key) then Some ((k, v) :: rest)
      else cons (k, w) <$> replace_prop key v rest
  end.

(** CreateDataProperty: an existing property keeps its place and takes
    the new value. *)
Definition define_prop (key : jsstring) (v : value)
    (props : list (jsstring * value)) : list (jsstring * value) :=
  match replace_prop key v props with
  | Some props' => props'
  | None =>
      match array_index key with
      | Some i => insert_index i key v props
      | None => props ++ [(key, v)]
      end
  end.

(** The own enumerable properties an object spread [{...v}] copies. *)
Definition spread (v : value) : list (jsstring * value) :=
  match v with
  | VObject props => props
  | VArray elems => imap (fun i e => (Number.digits (Z.of_nat i), e)) elems
  | VString s => imap (fun i c => (Number.digits (Z.of_nat i), VString [c])) s
  | _ => []
  end.

(** *** Coercions *)

Definition has_own (key : jsstring) (props : list (jsstring * value)) : bool :=
  existsb (fun kv => bool_decide (kv.1 = key)) props.

(** ToString, through ToPrimitive for an array or an object. An array is
    joined with commas, [null] and [undefined] elements printing as
    nothing. An object parsed from JSON has no callable property: with a
    [toString] of its own no conversion is left, without one it inherits
    [Object.prototype.toString]. *)
Fixpoint ToString (v : value) : completion jsstring :=
  match v with
  | VUndefined => Normal (js "undefined")
  | VNull => Normal (js "null")
  | VBool b => Normal (if b then js "true" else js "false")
  | VNumber x => Normal (Number.toString x)
  | VString s => Normal s
  | VArray elems =>
      (fix join (es : list value) : completion jsstring :=
         match es with
         | [] => Normal []
         | e :: es' =>
             s ← match e with
                 | VUndefined | VNull => Normal []
                 | _ => ToString e
                 end;
             match es' with
             | [] => Normal s
             | _ => r ← join es'; Normal (s ++ js "," ++ r)
             end
         end) elems
  | VObject props =>
      if has_own (js "toString") props then Throw TypeError
      else Normal (js "[object Object]")
  end.

(** ToPrimitive: an array or an object becomes the string above. *)
Definition ToPrimitive (v : value) : completion value :=
  match v with
  | VArray _ | VObject _ => VString <$> ToString v
  | _ => Normal v
  end.

(** StrWhiteSpaceChar: white space and line terminators. *)
Definition is_space (c : N) : bool :=
  bool_decide (c ∈ [9; 10; 11; 12; 13; 32; 160; 5760; 8232; 8233; 8239;
                    8287; 12288; 65279]%N)
  || ((8192 <=? c) && (c <=? 8202))%N.

Fixpoint trim_start (s : jsstring) : jsstring :=
  match s with
  | c :: r => if is_space c then trim_start r else s
  | [] => []
  end.

Definition trim (s : jsstring) : jsstring :=
  rev (trim_start (rev (trim_start s))).

(** StrUnsignedDecimalLiteral: [Infinity], or digits with an optional
    fraction and exponent, at least one digit before the exponent. *)
Definition unsigned_decimal (neg : bool) (s : jsstring) : option float :=
  if bool_decide (s = js "Infinity")
  then Some (if neg then neg_infinity else infinity)
  else
    let '(int, r) := span_digits s in
    let '(frac, r) :=
      match r with
      | 46%N :: r' => span_digits r'
      | _ => ([], r)
      end in
    match int ++ frac with
    | [] => None
    | _ => decimal neg int frac <$> exponent r
    end.

(** The radix a [0x], [0o] or [0b] prefix announces, and the digits after
    it. *)
Definition radix_prefix (s : jsstring) : option (Z * jsstring) :=
  match s with
  | 48%N :: c :: ds =>
      if ((c =? 120) || (c =? 88))%N then Some (16, ds)
      else if ((c =? 111) || (c =? 79))%N then Some (8, ds)
      else if ((c =? 98) || (c =? 66))%N then Some (2, ds)
      else None
  | _ => None
  end.

(** StringToNumber: the text trimmed, then nothing (zero), a hexadecimal,
    octal or binary integer, or a signed decimal; [NaN] otherwise. *)
Definition StringToNumber (s : jsstring) : float :=
  let t := trim s in
  match radix_prefix t with
  | Some (radix, ds) =>
      match ds, radix_val radix ds with
      | _ :: _, Some n => Number.round_Q (inject_Z n)
      | _, _ => nan
      end
  | None =>
      match t with
      | [] => PrimFloat.zero
      | 45%N :: u => default nan (unsigned_decimal true u)
      | 43%N :: u => default nan (unsigned_decimal false u)
      | _ => default nan (unsigned_decimal false t)
      end
  end.

(** ToNumber of a primitive value. *)
Definition ToNumber (v : value) : float :=
  match v with
  | VUndefined => nan
  | VNull => PrimFloat.zero
  | VBool b => if b then PrimFloat.one else PrimFloat.zero
  | VNumber x => x
  | VString s => StringToNumber s
  | VArray _ | VObject _ => nan
  end.

(** *** Operators *)

(** [a + b]: concatenation when either primitive is a string, addition
    of numbers otherwise. *)
Definition add (a b : value) : completion value :=
  pa ← ToPrimitive a;
  pb ← ToPrimitive b;
  match pa, pb with
  | VString _, _ | _, VString _ =>
      sa ← ToString pa; sb ← ToString pb; Normal (VString (sa ++ sb))
  | _, _ => Normal (VNumber (ToNumber pa + ToNumber pb)%float)
  end.

(** [a * b]: both operands become numbers. *)
Definition mul (a b : value) : completion value :=
  pa ← ToPrimitive a;
  pb ← ToPrimitive b;
  Normal (VNumber (ToNumber pa * ToNumber pb)%float).

(** [v === s] for a string [s]. *)
Definition strict_eq_string (v : value) (s : jsstring) : bool :=
  match v with
  | VString t => bool_decide (t = s)
  | _ => false
  end.

End Js.

(** ** JSON *)

Module JSON.
Import Js.

(** *** [JSON.parse] *)

(** JSON white space: tab, line feed, carriage return, space. *)
Definition is_ws (c : N) : bool :=
  ((c =? 9) || (c =? 10) || (c =? 13) || (c =? 32))%N.

Fixpoint skip_ws (s : jsstring) : jsstring :=
  match s with
  | c :: r => if is_ws c then skip_ws r else s
  | [] => []
  end.

Definition hex4 (a b c d : N) : option N :=
  match hex_val a, hex_val b, hex_val c, hex_val d with
  | Some x, Some y, Some z, Some w =>
      Some (Z.to_N (((x * 16 + y) * 16 + z) * 16 + w))
  | _, _, _, _ => None
  end.

(** The code unit an escape letter stands for. *)
Definition escape_unit (c : N) : option N :=
  if (c =? 34)%N then Some 34%N          (* quotation mark *)
  else if (c =? 92)%N then Some 92%N     (* reverse solidus *)
  else if (c =? 47)%N then Some 47%N     (* solidus *)
  else if (c =? 98)%N then Some 8%N      (* b *)
  else if (c =? 102)%N then Some 12%N    (* f *)
  else if (c =? 110)%N then Some 10%N    (* n *)
  else if (c =? 114)%N then Some 13%N    (* r *)
  else if (c =? 116)%N then Some 9%N     (* t *)
  else None.

(** The characters of a string literal after its opening quotation mark,
    up to the closing one, and the text that follows. Control characters
    must be escaped. *)
Fixpoint string_body (s : jsstring) : option (jsstring * jsstring) :=
  match s with
  | [] => None
  | c :: r =>
      if (c =? 34)%N then Some ([], r)
      else if (c =? 92)%N then
        match r with
        | [] => None
        | e :: r1 =>
            if (e =? 117)%N then
              match r1 with
              | h1 :: h2 :: h3 :: h4 :: r2 =>
                  match hex4 h1 h2 h3 h4, string_body r2 with
                  | Some u, Some (body, rest) => Some (u :: body, rest)
                  | _, _ => None
                  end
              | _ => None
              end
            else
              match escape_unit e, string_body r1 with
              | Some u, Some (body, rest) => Some (u :: body, rest)
              | _, _ => None
              end
        end
      else if (c <? 32)%N then None
      else
        match string_body r with
        | Some (body, rest) => Some (c :: body, rest)
        | None => None
        end
  end.

(** The text after the character [c], when the text starts with it. *)
Definition after (c : N) (s : jsstring) : option jsstring :=
  match s with
  | d :: r => if (d =? c)%N then Some r else None
  | [] => None
  end.

(** The digits of a number, after its sign: an integer part without a
    leading zero, an optional fraction and an optional exponent, each with
    one digit at least. Returns the number and the text that follows. *)
Definition number_from (neg : bool) (s : jsstring) : option (float * jsstring) :=
  let '(int, r) := span_digits s in
  let leading_zero :=
    match int with
    | c :: _ :: _ => (c =? 48)%N
    | _ => false
    end in
  if bool_decide (int = []) || leading_zero then None
  else
    let frac_part :=
      match after 46 r with
      | Some r1 =>
          match span_digits r1 with
          | ([], _) => None
          | (frac, r2) => Some (frac, r2)
          end
      | None => Some ([], r)
      end in
    '(frac, r) ← frac_part;
    match r with
    | c :: r1 =>
        if ((c =? 101) || (c =? 69))%N then
          let '(eneg, r2) :=
            match after 45 r1, after 43 r1 with
            | Some r', _ => (true, r')
            | None, Some r' => (false, r')
            | None, None => (false, r1)
            end in
          match span_digits r2 with
          | ([], _) => None
          | (ds, r3) =>
              Some (decimal neg int frac (if eneg then - nat_val ds else nat_val ds), r3)
          end
        else Some (decimal neg int frac 0, r)
    | [] => Some (decimal neg int frac 0, r)
    end.

(** A number, with its optional minus sign. *)
Definition number (s : jsstring) : option (float * jsstring) :=
  match after 45 s with
  | Some r => number_from true r
  | None => number_from false s
  end.

(** [rest] when [s] starts with the word [w]. *)
Fixpoint strip_prefix (w s : jsstring) : option jsstring :=
  match w, s with
  | [], _ => Some s
  | a :: w', b :: s' => if (a =? b)%N then strip_prefix w' s' else None
  | _ :: _, [] => None
  end.

(** A value and the text that follows it; [elements] and [members] read
    what follows the opening bracket or brace of a container that is not
    empty. Every call spends one unit of [fuel], and a call that succeeds
    has read one character at least for every two units it needed. *)
Fixpoint value_at (fuel : nat) (s : jsstring) : option (value * jsstring) :=
  match fuel with
  | O => None
  | S fuel =>
      match s with
      | [] => None
      | c :: r =>
          if (c =? 34)%N then
            '(body, rest) ← string_body r; Some (VString body, rest)
          else if (c =? 91)%N then
            match after 93 (skip_ws r) with
            | Some rest => Some (VArray [], rest)
            | None =>
                '(elems, rest) ← elements fuel (skip_ws r); Some (VArray elems, rest)
            end
          else if (c =? 123)%N then
            match after 125 (skip_ws r) with
            | Some rest => Some (VObject [], rest)
            | None =>
                '(props, rest) ← members fuel [] (skip_ws r); Some (VObject props, rest)
            end
          else if (c =? 110)%N then
            rest ← strip_prefix (js "null") s; Some (VNull, rest)
          else if (c =? 116)%N then
            rest ← strip_prefix (js "true") s; Some (VBool true, rest)
          else if (c =? 102)%N then
            rest ← strip_prefix (js "false") s; Some (VBool false, rest)
          else
            '(x, rest) ← number s; Some (VNumber x, rest)
      end
  end
with elements (fuel : nat) (s : jsstring) : option (list value * jsstring) :=
  match fuel with
  | O => None
  | S fuel =>
      '(v, r) ← value_at fuel (skip_ws s);
      match after 44 (skip_ws r), after 93 (skip_ws r) with
      | Some r1, _ => '(vs, rest) ← elements fuel r1; Some (v :: vs, rest)
      | None, Some rest => Some ([v], rest)
      | None, None => None
      end
  end
with members (fuel : nat) (acc : list (jsstring * value)) (s : jsstring)
    : option (list (jsstring * value) * jsstring) :=
  match fuel with
  | O => None
  | S fuel =>
      r ← after 34 (skip_ws s);
      '(key, r1) ← string_body r;
      r2 ← after 58 (skip_ws r1);
      '(v, r3) ← value_at fuel (skip_ws r2);
      let acc := define_prop key v acc in
      match after 44 (skip_ws r3), after 125 (skip_ws r3) with
      | Some r4, _ => members fuel acc r4
      | None, Some rest => Some (acc, rest)
      | None, None => None
      end
  end.

(** [JSON.parse(text)]: one value between optional white space, or a
    [SyntaxError]. *)
Definition parse (text : jsstring) : completion value :=
  match value_at (2 * length text + 2) (skip_ws text) with
  | Some (v, rest) =>
      match skip_ws rest with
      | [] => Normal v
      | _ => Throw SyntaxError
      end
  | None => Throw SyntaxError
  end.

(** *** [JSON.stringify] *)

Definition hex_digit (n : N) : N := if (n <? 10)%N then (48 + n)%N else (87 + n)%N.

(** The escape [\uXXXX] of a code unit, in lower case. *)
Definition unicode_escape (c : N) : jsstring :=
  js "\u" ++ [hex_digit (c / 4096 mod 16)%N; hex_digit (c / 256 mod 16)%N;
              hex_digit (c / 16 mod 16)%N; hex_digit (c mod 16)%N].

Definition is_high_surrogate (c : N) : bool := ((55296 <=? c) && (c <=? 56319))%N.
Definition is_low_surrogate (c : N) : bool := ((56320 <=? c) && (c <=? 57343))%N.

Definition quote_unit (c : N) : jsstring :=
  if (c =? 8)%N then js "\b"
  else if (c =? 9)%N then js "\t"
  else if (c =? 10)%N then js "\n"
  else if (c =? 12)%N then js "\f"
  else if (c =? 13)%N then js "\r"
  else if (c =? 34)%N then [92; 34]%N
  else if (c =? 92)%N then [92; 92]%N
  else if (c <? 32)%N || is_high_surrogate c || is_low_surrogate c
  then unicode_escape c
  else [c].

(** QuoteJSONString without the quotation marks: a surrogate pair is
    copied, a lone surrogate is escaped. *)
Fixpoint quote_body (s : jsstring) : jsstring :=
  match s with
  | [] => []
  | c :: r =>
      match r with
      | d :: r' =>
          if is_high_surrogate c && is_low_surrogate d
          then c :: d :: quote_body r'
          else quote_unit c ++ quote_body r
      | [] => quote_unit c
      end
  end.

Definition quote (s : jsstring) : jsstring := [34%N] ++ quote_body s ++ [34%N].

Fixpoint join (sep : jsstring) (parts : list jsstring) : jsstring :=
  match parts with
  | [] => []
  | [p] => p
  | p :: ps => p ++ sep ++ join sep ps
  end.

(** [JSON.stringify(v)], without replacer or indentation; no result for
    [undefined]. An array prints [undefined] as [null], an object leaves
    out a property whose value is [undefined]; a number that is not finite
    prints as [null]. *)
Fixpoint stringify (v : value) : option jsstring :=
  match v with
  | VUndefined => None
  | VNull => Some (js "null")
  | VBool b => Some (if b then js "true" else js "false")
  | VNumber x =>
      match Prim2SF x with
      | S754_nan | S754_infinity _ => Some (js "null")
      | _ => Some (Number.toString x)
      end
  | VString s => Some (quote s)
  | VArray elems =>
      Some (js "[" ++
            join (js ",") (map (fun e => default (js "null") (stringify e)) elems) ++
            js "]")
  | VObject props =>
      Some (js "{" ++
            join (js ",")
              (omap (fun kv => (fun t => quote kv.1 ++ js ":" ++ t) <$> stringify kv.2)
                    props) ++
            js "}")
  end.

End JSON.

(** ** The data model *)

(** The product a caller hands to [addToCart]. *)
Module Product.
Record t := {
  _id : jsstring;
  title : jsstring;
  price : float;
  imageUrl : jsstring;
  stock : float
}.
End Product.

(** A line item of the cart. Numbers are host numbers. *)
Module CartLineItem.
Record t := {
  productId : jsstring;
  title : jsstring;
  price : float;
  imageUrl : jsstring;
  stock : float;
  quantity : float
}.
End CartLineItem.

(** [Array.prototype.findIndex] and [Array.prototype.map] with the index
    the callback receives. *)
Module Array.
Section Methods.
Context {A B : Type}.

Fixpoint findIndex_from (pred : A -> bool) (i : Z) (arr : list A) : Z :=
  match arr with
  | [] => -1
  | x :: rest => if pred x then i else findIndex_from pred (i + 1) rest
  end.

Definition findIndex (pred : A -> bool) (arr : list A) : Z :=
  findIndex_from pred 0 arr.

Fixpoint map_from (f : A -> Z -> B) (i : Z) (arr : list A) : list B :=
  match arr with
  | [] => []
  | x :: rest => f x i :: map_from f (i + 1) rest
  end.

Definition map (f : A -> Z -> B) (arr : list A) : list B := map_from f 0 arr.

End Methods.
End Array.

(** ** The component on well-formed carts *)

Module Cart.
Import CartLineItem.

(** [{ ...item, quantity: q }] *)
Definition with_quantity (item : CartLineItem.t) (q : float) : CartLineItem.t :=
  {| productId := productId item;
     title := title item;
     price := price item;
     imageUrl := imageUrl item;
     stock := stock item;
     quantity := q |}.

Definition newItem (product : Product.t) (quantity : float) : CartLineItem.t :=
  {| productId := Product._id product;
     title := Product.title product;
     price := Product.price product;
     imageUrl := Product.imageUrl product;
     stock := Product.stock product;
     quantity := quantity |}.

(** [addToCart(product, quantity = 1)], from the [cartItems] of the render
    the handler belongs to; the result is what it hands to [setCartItems]. *)
Definition addToCart (cartItems : list CartLineItem.t) (product : Product.t)
    (quantity : option float) : list CartLineItem.t :=
  let quantity := default 1%float quantity in
  let existingItemIndex :=
    Array.findIndex
      (fun item => bool_decide (productId item = Product._id product)) cartItems in
  if existingItemIndex >? -1 then
    Array.map
      (fun item index =>
         if index =? existingItemIndex
         then with_quantity item (CartLineItem.quantity item + quantity)%float
         else item)
      cartItems
  else cartItems ++ [newItem product quantity].

Definition removeFromCart (cartItems : list CartLineItem.t) (productId : jsstring)
    : list CartLineItem.t :=
  filter (fun item => CartLineItem.productId item <> productId) cartItems.

Definition updateQuantity (cartItems : list CartLineItem.t) (productId : jsstring)
    (newQuantity : float) : list CartLineItem.t :=
  List.map
    (fun item =>
       if bool_decide (CartLineItem.productId item = productId)
       then with_quantity item newQuantity
       else item)
    cartItems.

Definition clearCart : list CartLineItem.t := [].

Definition totalItems (cartItems : list CartLineItem.t) : float :=
  fold_left (fun acc item => (acc + quantity item)%float) cartItems 0%float.

(** The sum behind [totalPrice], before it is formatted. *)
Definition totalPrice_number (cartItems : list CartLineItem.t) : float :=
  fold_left (fun acc item => (acc + price item * quantity item)%float)
    cartItems 0%float.

(** [totalPrice: totalPrice.toFixed(2)], as the context value exposes it. *)
Definition totalPrice (cartItems : list CartLineItem.t) : jsstring :=
  Number.toFixed (totalPrice_number cartItems) 2.

End Cart.

(** ** The component on arbitrary host values *)

Module Raw.
Import Js.

(** The receiver of an array method: anything but an array has no such
    method, and the call throws. *)
Definition elements_of (v : value) : completion (list value) :=
  match v with
  | VArray elems => Normal elems
  | _ => Throw TypeError
  end.

Fixpoint findIndex_from (pred : value -> completion bool) (i : Z)
    (arr : list value) : completion Z :=
  match arr with
  | [] => Normal (-1)
  | x :: rest =>
      b ← pred x;
      if b : bool then Normal i else findIndex_from pred (i + 1) rest
  end.

Fixpoint map_from (f : value -> Z -> completion value) (i : Z)
    (arr : list value) : completion (list value) :=
  match arr with
  | [] => Normal []
  | x :: rest => y ← f x i; ys ← map_from f (i + 1) rest; Normal (y :: ys)
  end.

Fixpoint filter_with (pred : value -> completion bool) (arr : list value)
    : completion (list value) :=
  match arr with
  | [] => Normal []
  | x :: rest =>
      b ← pred x;
      ys ← filter_with pred rest;
      Normal (if b : bool then x :: ys else ys)
  end.

Fixpoint reduce (f : value -> value -> completion value) (arr : list value)
    (acc : value) : completion value :=
  match arr with
  | [] => Normal acc
  | x :: rest => acc' ← f acc x; reduce f rest acc'
  end.

(** [{ ...item, quantity: q }] *)
Definition with_quantity (item q : value) : value :=
  VObject (define_prop (js "quantity") q (spread item)).

Definition newItem (product : Product.t) (quantity : float) : value :=
  VObject
    [ (js "productId", VString (Product._id product));
      (js "title", VString (Product.title product));
      (js "price", VNumber (Product.price product));
      (js "imageUrl", VString (Product.imageUrl product));
      (js "stock", VNumber (Product.stock product));
      (js "quantity", VNumber quantity) ].

Definition addToCart (cartItems : value) (product : Product.t)
    (quantity : option float) : completion value :=
  let quantity := default 1%float quantity in
  arr ← elements_of cartItems;
  existingItemIndex ←
    findIndex_from
      (fun item =>
         id ← Get item (js "productId");
         Normal (strict_eq_string id (Product._id product)))
      0 arr;
  if existingItemIndex >? -1 then
    updatedCartItems ←
      map_from
        (fun item index =>
           if index =? existingItemIndex then
             q ← Get item (js "quantity");
             q' ← add q (VNumber quantity);
             Normal (with_quantity item q')
           else Normal item)
        0 arr;
    Normal (VArray updatedCartItems)
  else Normal (VArray (arr ++ [newItem product quantity])).

Definition removeFromCart (cartItems : value) (productId : jsstring)
    : completion value :=
  arr ← elements_of cartItems;
  updatedCartItems ←
    filter_with
      (fun item =>
         id ← Get item (js "productId");
         Normal (negb (strict_eq_string id productId)))
      arr;
  Normal (VArray updatedCartItems).

Definition updateQuantity (cartItems : value) (productId : jsstring)
    (newQuantity : float) : completion value :=
  arr ← elements_of cartItems;
  updatedCartItems ←
    map_from
      (fun item _ =>
         id ← Get item (js "productId");
         Normal (if strict_eq_string id productId
                 then with_quantity item (VNumber newQuantity)
                 else item))
      0 arr;
  Normal (VArray updatedCartItems).

Definition clearCart : value := VArray [].

Definition totalItems (cartItems : value) : completion value :=
  arr ← elements_of cartItems;
  reduce (fun acc item => q ← Get item (js "quantity"); add acc q)
    arr (VNumber 0).

Definition totalPrice_number (cartItems : value) : completion value :=
  arr ← elements_of cartItems;
  reduce
    (fun acc item =>
       p ← Get item (js "price");
       q ← Get item (js "quantity");
       m ← mul p q;
       add acc m)
    arr (VNumber 0).

(** [totalPrice.toFixed(2)]: only a number has the method. *)
Definition totalPrice (cartItems : value) : completion jsstring :=
  total ← totalPrice_number cartItems;
  match total with
  | VNumber x => Normal (Number.toFixed x 2)
  | _ => Throw TypeError
  end.

(** A well-formed line item as the host value the script builds for it. *)
Definition encode_item (item : CartLineItem.t) : value :=
  VObject
    [ (js "productId", VString (CartLineItem.productId item));
      (js "title", VString (CartLineItem.title item));
      (js "price", VNumber (CartLineItem.price item));
      (js "imageUrl", VString (CartLineItem.imageUrl item));
      (js "stock", VNumber (CartLineItem.stock item));
      (js "quantity", VNumber (CartLineItem.quantity item)) ].

Definition encode (cartItems : list CartLineItem.t) : value :=
  VArray (List.map encode_item cartItems).

End Raw.

(** ** The provider *)

(** The component as a transition system. What it takes from React:
    - a handler works on the [cartItems] of the render it was created in,
      and what it hands to [setCartItems] is the cart of the next render;
    - the effects of the first render run once, in the order they are
      declared, with the state that render saw; the updates they make cause
      one more render, and no event comes between the two;
    - after a render in which [cartItems] or [loading] changed, the second
      effect runs again;
    - a render that throws unmounts the tree, and none of its effects run.
    [AuthContext] is read and not used; its provider is taken to be there. *)
Module Provider.
Import Js.

(** What the component does to its collaborators, in order: the calls on
    [localStorage] under the key [cartItems], and [setLoading]. *)
Inductive event :=
| GetItem
| SetItem (text : jsstring)
| RemoveItem
| SetLoading (b : bool).

Record state := {
  cartItems : value;            (* useState([]) *)
  loading : bool;               (* useState(true) *)
  storage : option jsstring;    (* the entry of localStorage under 'cartItems' *)
  mounted : bool;               (* the effects of the first render have run *)
  crashed : bool;               (* a render threw and the tree was unmounted *)
  trace : list event            (* oldest first *)
}.

(** The state of the first render, over whatever the storage holds. *)
Definition init (stored : option jsstring) : state :=
  {| cartItems := VArray []; loading := true; storage := stored;
     mounted := false; crashed := false; trace := [] |}.

Definition setCartItems (v : value) (st : state) : state :=
  {| cartItems := v; loading := loading st; storage := storage st;
     mounted := mounted st; crashed := crashed st; trace := trace st |}.

Definition setLoading (b : bool) (st : state) : state :=
  {| cartItems := cartItems st; loading := b; storage := storage st;
     mounted := mounted st; crashed := crashed st;
     trace := trace st ++ [SetLoading b] |}.

Definition getItem (st : state) : option jsstring * state :=
  (storage st,
   {| cartItems := cartItems st; loading := loading st; storage := storage st;
      mounted := mounted st; crashed := crashed st;
      trace := trace st ++ [GetItem] |}).

(** [localStorage.setItem('cartItems', v)] stores [String(v)]. *)
Definition setItem (v : option jsstring) (st : state) : state :=
  let text := default (js "undefined") v in
  {| cartItems := cartItems st; loading := loading st; storage := Some text;
     mounted := mounted st; crashed := crashed st;
     trace := trace st ++ [SetItem text] |}.

Definition removeItem (st : state) : state :=
  {| cartItems := cartItems st; loading := loading st; storage := None;
     mounted := mounted st; crashed := crashed st;
     trace := trace st ++ [RemoveItem] |}.

(** The [try] block of the first effect. A string is truthy unless empty. *)
Definition restore_try (st : state) : state * completion unit :=
  let '(storedCart, st) := getItem st in
  match storedCart with
  | Some text =>
      if bool_decide (text <> []) then
        match JSON.parse text with
        | Normal v => (setCartItems v st, Normal ())
        | Throw e => (st, Throw e)
        end
      else (st, Normal ())
  | None => (st, Normal ())
  end.

(** The first effect: [try], [catch] and [finally]. *)
Definition restore (st : state) : state :=
  let '(st, outcome) := restore_try st in
  let st :=
    match outcome with
    | Normal _ => st
    | Throw _ => removeItem st
    end in
  setLoading false st.

(** The second effect, run with the [cartItems] and [loading] of the render
    it belongs to. *)
Definition persist (cartItems : value) (loading : bool) (st : state) : state :=
  if negb loading then setItem (JSON.stringify cartItems) st else st.

(** What a render computes for its consumers. *)
Record cartContextValue := {
  ctx_cartItems : value;
  ctx_totalItems : value;
  ctx_totalPrice : jsstring;
  ctx_loading : bool
}.

Definition render (st : state) : completion cartContextValue :=
  totalItems ← Raw.totalItems (cartItems st);
  totalPrice ← Raw.totalPrice (cartItems st);
  Normal {| ctx_cartItems := cartItems st; ctx_totalItems := totalItems;
            ctx_totalPrice := totalPrice; ctx_loading := loading st |}.

Definition crash (st : state) : state :=
  {| cartItems := cartItems st; loading := loading st; storage := storage st;
     mounted := mounted st; crashed := true; trace := trace st |}.

(** A render after a change of state: when it throws the tree is unmounted
    and no effect runs; otherwise the second effect runs, one of its
    dependencies having changed. *)
Definition rerender (st : state) : state :=
  match render st with
  | Normal _ => persist (cartItems st) (loading st) st
  | Throw _ => crash st
  end.

(** The effects of the first render, both run with what that render saw,
    and the render their updates cause. *)
Definition mount (st : state) : state :=
  let seen_cartItems := cartItems st in
  let seen_loading := loading st in
  let st := restore st in
  let st := persist seen_cartItems seen_loading st in
  rerender
    {| cartItems := cartItems st; loading := loading st; storage := storage st;
       mounted := true; crashed := crashed st; trace := trace st |}.

(** A call on one of the four handlers of the context value. *)
Inductive call :=
| AddToCart (product : Product.t) (quantity : option float)
| RemoveFromCart (productId : jsstring)
| UpdateQuantity (productId : jsstring) (newQuantity : float)
| ClearCart.

(** What a handler of a render hands to [setCartItems]: it computes it
    from the [cartItems] of that render. *)
Definition invoke (cartItems : value) (c : call) : completion value :=
  match c with
  | AddToCart product quantity => Raw.addToCart cartItems product quantity
  | RemoveFromCart productId => Raw.removeFromCart cartItems productId
  | UpdateQuantity productId newQuantity =>
      Raw.updateQuantity cartItems productId newQuantity
  | ClearCart => Normal Raw.clearCart
  end.

(** The calls a consumer makes in one event, on the handlers of the latest
    render: every call sees the cart of that render, an exception ends the
    event, and the value set last is the one the next render sees. *)
Fixpoint last_set (cartItems : value) (calls : list call)
    (pending : option value) : option value :=
  match calls with
  | [] => pending
  | c :: rest =>
      match invoke cartItems c with
      | Normal v => last_set cartItems rest (Some v)
      | Throw _ => pending
      end
  end.

Definition dispatch (calls : list call) (st : state) : state :=
  match last_set (cartItems st) calls None with
  | Some v => rerender (setCartItems v st)
  | None => st
  end.

(** What happens to a provider: the effects of its first render run, once;
    or a consumer's event calls handlers. Nothing happens to a provider
    whose tree was unmounted. *)
Inductive action :=
| Mount
| Event (calls : list call).

Definition step (st : state) (a : action) : state :=
  if crashed st then st
  else
    match a with
    | Mount => if mounted st then st else mount st
    | Event calls => dispatch calls st
    end.

Definition run (st : state) (actions : list action) : state :=
  fold_left step actions st.

End Provider.

(** ** Vocabulary of the properties *)

Module Spec.
Import CartLineItem.

(** A sum the way the host evaluates it, left to right from [start]. *)
Definition sum_from (start : float) (xs : list float) : float :=
  fold_left PrimFloat.add xs start.

(** The cart after a sequence of [addToCart] calls on the empty cart, each
    call made from the render that follows the previous one. *)
Definition cart_after (calls : list (Product.t * option float))
    : list CartLineItem.t :=
  fold_left (fun cart call => Cart.addToCart cart call.1 call.2) calls [].

(** The quantities the calls passed for one product id, in call order, an
    omitted quantity counting as 1. *)
Definition quantities_passed (pid : jsstring)
    (calls : list (Product.t * option float)) : list float :=
  omap (fun call => if decide (Product._id call.1 = pid)
                    then Some (default 1%float call.2) else None) calls.

(** The line items of a cart for one product id. *)
Definition items_for (pid : jsstring) (cartItems : list CartLineItem.t)
    : list CartLineItem.t :=
  filter (fun item => productId item = pid) cartItems.

(** Two line items that differ in their quantity at most. *)
Definition same_but_quantity (a b : CartLineItem.t) : Prop :=
  productId a = productId b /\ title a = title b /\ price a = price b /\
  imageUrl a = imageUrl b /\ stock a = stock b.

(** The test [addToCart] looks a line item up with. *)
Definition has_id (product : Product.t) (item : CartLineItem.t) : bool :=
  bool_decide (productId item = Product._id product).

(** The update [addToCart] applies to the line item it found. *)
Definition bump_quantity (quantity : option float) (item : CartLineItem.t)
    : CartLineItem.t :=
  Cart.with_quantity item (CartLineItem.quantity item + default 1 quantity)%float.

(** The magnitude of a finite host number, as a rational. *)
Definition magnitude_of (x : float) : option Q :=
  match Prim2SF x with
  | S754_zero _ => Some 0%Q
  | S754_finite _ m e => Some (Number.value m e)
  | _ => None
  end.

(** Whether [toFixed] prints a minus sign: for a number below zero. *)
Definition negative (x : float) : bool :=
  match Prim2SF x with
  | S754_finite s _ _ => s
  | _ => false
  end.

(** [n] hundredths in fixed-point notation: a sign, the digits of the
    integer part, a point and two digits. *)
Definition two_decimals (minus : bool) (n : Z) : jsstring :=
  (if minus then js "-" else []) ++ Number.digits (n / 100) ++ js "." ++
  [Number.digit (n / 10 mod 10); Number.digit (n mod 10)].

(** The [productId] the script reads off an element of the cart. *)
Definition productId_of (item : Js.value) : Js.value :=
  match item with
  | Js.VObject props => Js.lookup_prop (js "productId") props
  | _ => Js.VUndefined
  end.

(** A host value that is a cart with at most one line item per product
    id: an array of objects, whatever their properties and the order of
    these, no two of which read the same [productId]. *)
Definition unique_productIds (v : Js.value) : Prop :=
  exists elems,
    v = Js.VArray elems /\
    Forall (fun item => exists props, item = Js.VObject props) elems /\
    NoDup (productId_of <$> elems).

(** A storage whose entry, when it parses, parses to such a cart. *)
Definition sound_storage (stored : option jsstring) : Prop :=
  forall text v, stored = Some text -> JSON.parse text = Js.Normal v ->
                 unique_productIds v.

(** A trace in which every write to the storage comes after the first
    effect has called [setLoading(false)]. *)
Definition writes_follow_restore (trace : list Provider.event) : Prop :=
  forall before text after,
    trace = before ++ Provider.SetItem text :: after ->
    Provider.SetLoading false ∈ before.

(** What the trace and the flags of a state say about each other, in a
    run that started over [stored]. *)
Definition consistent (stored : option jsstring) (st : Provider.state) : Prop :=
  writes_follow_restore (Provider.trace st) /\
  (Provider.loading st = true ->
   Provider.trace st = [] /\ Provider.storage st = stored /\
   Provider.mounted st = false) /\
  (Provider.loading st = false ->
   Provider.SetLoading false ∈ Provider.trace st /\ Provider.mounted st = true).

(** The cart of a state has at most one line item per product id; until
    the first effect has run, the storage is what it was. *)
Definition unique_so_far (stored : option jsstring) (st : Provider.state) : Prop :=
  unique_productIds (Provider.cartItems st) /\
  (Provider.mounted st = false ->
   Provider.storage st = stored /\ Provider.loading st = true).

(** The stored entry is the text of the cart, for a provider that has
    finished loading and whose renders did not throw. *)
Definition mirrored (st : Provider.state) : Prop :=
  Provider.loading st = false -> Provider.crashed st = false ->
  Provider.storage st =
  Some (default (js "undefined") (JSON.stringify (Provider.cartItems st))).

(** A string of 16-bit code units. *)
Definition code_units (s : jsstring) : Prop := Forall (fun c => (c < 65536)%N) s.

(** A number whose text reads back as the number it was: the host
    promises it of every finite number but negative zero, which prints as
    [0]; [NaN] and the infinities print as no JSON number at all. *)
Definition reads_back (x : float) : Prop :=
  JSON.number (Number.toString x) = Some (x, []).

(** A line item that can be stored and read back. *)
Definition storable (item : CartLineItem.t) : Prop :=
  code_units (productId item) /\ code_units (title item) /\
  code_units (imageUrl item) /\
  reads_back (price item) /\ reads_back (stock item) /\ reads_back (quantity item).

(** Whether the first effect removes the entry it finds: a string that is
    not empty and does not parse. *)
Definition unparseable (stored : option jsstring) : bool :=
  match stored with
  | Some text =>
      bool_decide (text <> []) &&
      match JSON.parse text with
      | Js.Throw _ => true
      | Js.Normal _ => false
      end
  | None => false
  end.

(** A value that is neither an array nor an object. *)
Definition scalar (v : Js.value) : Prop :=
  match v with
  | Js.VArray _ | Js.VObject _ => False
  | _ => True
  end.

(** A line item as far as the script goes: an object whose price and
    quantity are scalars, [undefined] for a property it lacks included. *)
Definition countable (item : Js.value) : Prop :=
  match item with
  | Js.VObject props =>
      scalar (Js.lookup_prop (js "price") props) /\
      scalar (Js.lookup_prop (js "quantity") props)
  | _ => False
  end.


(** Whether a number is finite; the others are stored as [null]. *)
Definition finite (x : float) : bool :=
  match Prim2SF x with
  | S754_nan | S754_infinity _ => false
  | _ => true
  end.

(** The text [JSON.stringify] writes for a number, and the value that
    text reads back as. *)
Definition number_text (x : float) : jsstring :=
  if finite x then Number.toString x else js "null".

Definition restored_number (x : float) : Js.value :=
  if finite x then Js.VNumber x else Js.VNull.

(** A line item whose strings are strings of code units and whose finite
    numbers read back; the other numbers it may hold are [NaN] and the
    infinities. *)
Definition persistable (item : CartLineItem.t) : Prop :=
  code_units (productId item) /\ code_units (title item) /\
  code_units (imageUrl item) /\
  (finite (price item) = true -> reads_back (price item)) /\
  (finite (stock item) = true -> reads_back (stock item)) /\
  (finite (quantity item) = true -> reads_back (quantity item)).

(** The text of a line item in the stored entry: its six properties in
    the order [addToCart] wrote them. *)
Definition item_text (item : CartLineItem.t) : jsstring :=
  js "{" ++
  JSON.quote (js "productId") ++ js ":" ++ JSON.quote (productId item) ++ js "," ++
  JSON.quote (js "title") ++ js ":" ++ JSON.quote (title item) ++ js "," ++
  JSON.quote (js "price") ++ js ":" ++ number_text (price item) ++ js "," ++
  JSON.quote (js "imageUrl") ++ js ":" ++ JSON.quote (imageUrl item) ++ js "," ++
  JSON.quote (js "stock") ++ js ":" ++ number_text (stock item) ++ js "," ++
  JSON.quote (js "quantity") ++ js ":" ++ number_text (quantity item) ++
  js "}".

(** The text of a cart in the stored entry. *)
Definition cart_text (cart : list CartLineItem.t) : jsstring :=
  js "[" ++ JSON.join (js ",") (item_text <$> cart) ++ js "]".

(** What the text of a line item reads back as. *)
Definition restored_item (item : CartLineItem.t) : Js.value :=
  Js.VObject
    [ (js "productId", Js.VString (productId item));
      (js "title", Js.VString (title item));
      (js "price", restored_number (price item));
      (js "imageUrl", Js.VString (imageUrl item));
      (js "stock", restored_number (stock item));
      (js "quantity", restored_number (quantity item)) ].

(** What [addToCart] does, told by recursion on the cart: the first line
    item with the product's id gets the quantity added, and a cart without
    one gets the new line item at its end. *)
Fixpoint add_first (product : Product.t) (quantity : option float)
    (cart : list CartLineItem.t) : list CartLineItem.t :=
  match cart with
  | [] => [Cart.newItem product (default 1%float quantity)]
  | item :: rest =>
      if has_id product item then bump_quantity quantity item :: rest
      else item :: add_first product quantity rest
  end.

End Spec.

(** ** Arrays *)

Section ArrayFacts.
Context {A B : Type}.
Implicit Types (pred : A -> bool) (arr : list A) (i : Z) (n : nat).

Lemma findIndex_from_none pred arr i :
  (forall x, x ∈ arr -> pred x = false) ->
  Array.findIndex_from pred i arr = -1.
Proof.
  revert i. induction arr as [|x rest IH]; intros i Hall; simpl; [done|].
  rewrite Hall by left. apply IH. intros y Hy. apply Hall. by right.
Qed.

Lemma findIndex_from_first pred arr i n x :
  arr !! n = Some x -> pred x = true ->
  (forall m y, (m < n)%nat -> arr !! m = Some y -> pred y = false) ->
  Array.findIndex_from pred i arr = i + Z.of_nat n.
Proof.
  revert i n. induction arr as [|y rest IH]; intros i n Hn Hx Hbefore; [done|].
  destruct n as [|n]; simpl in *.
  - injection Hn as ->. rewrite Hx. lia.
  - rewrite (Hbefore 0%nat y) by (done || lia).
    rewrite (IH (i + 1) n) by (try done; intros m z Hm; apply (Hbefore (S m)); lia).
    lia.
Qed.

(** Either no element satisfies the predicate, or there is a first one. *)
Lemma first_match pred arr :
  (forall x, x ∈ arr -> pred x = false) \/
  exists n x, arr !! n = Some x /\ pred x = true /\
    forall m y, (m < n)%nat -> arr !! m = Some y -> pred y = false.
Proof.
  induction arr as [|y rest IH]; [left; intros x Hx; inversion Hx|].
  destruct (pred y) eqn:Hy.
  - right. exists 0%nat, y. repeat split; [done|]. intros m z Hm. lia.
  - destruct IH as [Hnone|(n & x & Hn & Hx & Hbefore)].
    + left. intros x Hx. inversion Hx; subst; auto.
    + right. exists (S n), x. repeat split; [done..|].
      intros [|m] z Hm Hz; simpl in Hz; [congruence|].
      apply (Hbefore m); [lia|done].
Qed.

Lemma map_from_lookup (f : A -> Z -> B) arr i n :
  Array.map_from f i arr !! n = (fun x => f x (i + Z.of_nat n)) <$> arr !! n.
Proof.
  revert i n. induction arr as [|y rest IH]; intros i n; [done|].
  destruct n as [|n]; simpl.
  - by rewrite Z.add_0_r.
  - rewrite IH. by replace (i + 1 + Z.of_nat n) with (i + Z.of_nat (S n)) by lia.
Qed.

Lemma map_from_length (f : A -> Z -> B) arr i :
  length (Array.map_from f i arr) = length arr.
Proof. revert i. induction arr; intros; simpl; auto. Qed.

End ArrayFacts.

(** ** The script on well-formed carts *)

(** On the host value of a well-formed cart, the script computes the host
    value of what [Cart] computes. *)
Section Refinement.
Import Js CartLineItem.
Implicit Types (cart : list CartLineItem.t) (item : CartLineItem.t)
  (product : Product.t) (pid : jsstring).

Lemma Get_productId item :
  Get (Raw.encode_item item) (js "productId") = Normal (VString (productId item)).
Proof. reflexivity. Qed.

Lemma Get_quantity item :
  Get (Raw.encode_item item) (js "quantity") = Normal (VNumber (quantity item)).
Proof. reflexivity. Qed.

Lemma Get_price item :
  Get (Raw.encode_item item) (js "price") = Normal (VNumber (price item)).
Proof. reflexivity. Qed.

Lemma with_quantity_encode item q :
  Raw.with_quantity (Raw.encode_item item) (VNumber q) =
  Raw.encode_item (Cart.with_quantity item q).
Proof. reflexivity. Qed.

Lemma newItem_encode product q :
  Raw.newItem product q = Raw.encode_item (Cart.newItem product q).
Proof. reflexivity. Qed.

Lemma findIndex_encode product cart i :
  Raw.findIndex_from
    (fun x => id ← Get x (js "productId");
              Normal (strict_eq_string id (Product._id product)))
    i (Raw.encode_item <$> cart) =
  Normal (Array.findIndex_from
            (fun item => bool_decide (productId item = Product._id product)) i cart).
Proof.
  revert i. induction cart as [|item cart IH]; intros i; [done|].
  cbn [fmap list_fmap Raw.findIndex_from Array.findIndex_from].
  rewrite Get_productId. cbn [mbind completion_bind strict_eq_string].
  destruct (bool_decide _); [done|apply IH].
Qed.

Lemma addToCart_encode cart product quantity :
  Raw.addToCart (Raw.encode cart) product quantity =
  Normal (Raw.encode (Cart.addToCart cart product quantity)).
Proof.
  unfold Raw.addToCart, Cart.addToCart, Raw.encode, Array.findIndex, Array.map.
  change (List.map Raw.encode_item cart) with (Raw.encode_item <$> cart).
  cbn [Raw.elements_of mbind completion_bind].
  rewrite findIndex_encode. cbn [mbind completion_bind].
  set (existing := Array.findIndex_from _ 0 cart). clearbody existing.
  set (q := default 1%float quantity).
  destruct (existing >? -1).
  - assert (forall i,
      Raw.map_from
        (fun x index =>
           if index =? existing
           then q0 ← Get x (js "quantity");
                q' ← add q0 (VNumber q); Normal (Raw.with_quantity x q')
           else Normal x)
        i (Raw.encode_item <$> cart) =
      Normal (Raw.encode_item <$>
              Array.map_from
                (fun item index =>
                   if index =? existing
                   then Cart.with_quantity item (CartLineItem.quantity item + q)%float
                   else item)
                i cart)) as Hmap.
    { induction cart as [|item cart IH]; intros i; [done|].
      cbn [fmap list_fmap Raw.map_from Array.map_from].
      rewrite IH. destruct (i =? existing); [|done].
      rewrite Get_quantity. cbn [mbind completion_bind].
      by rewrite <- with_quantity_encode. }
    by rewrite Hmap.
  - change (List.map Raw.encode_item ?l) with (Raw.encode_item <$> l).
    by rewrite fmap_app, newItem_encode.
Qed.

Lemma removeFromCart_encode cart pid :
  Raw.removeFromCart (Raw.encode cart) pid =
  Normal (Raw.encode (Cart.removeFromCart cart pid)).
Proof.
  unfold Raw.removeFromCart, Cart.removeFromCart, Raw.encode.
  cbn [Raw.elements_of mbind completion_bind].
  assert (Raw.filter_with
            (fun x => id ← Get x (js "productId");
                      Normal (negb (strict_eq_string id pid)))
            (List.map Raw.encode_item cart) =
          Normal (List.map Raw.encode_item
                    (filter (fun item => productId item <> pid) cart))) as ->; [|done].
  induction cart as [|item cart IH]; [done|].
  cbn [List.map Raw.filter_with]. rewrite IH, Get_productId, filter_cons.
  cbn [mbind completion_bind strict_eq_string].
  destruct (decide (productId item <> pid)) as [Hne|Heq].
  - by rewrite bool_decide_eq_false_2.
  - rewrite bool_decide_eq_true_2; [done|]. by destruct (decide (productId item = pid)).
Qed.

Lemma updateQuantity_encode cart pid newQuantity :
  Raw.updateQuantity (Raw.encode cart) pid newQuantity =
  Normal (Raw.encode (Cart.updateQuantity cart pid newQuantity)).
Proof.
  unfold Raw.updateQuantity, Cart.updateQuantity, Raw.encode.
  cbn [Raw.elements_of mbind completion_bind].
  assert (forall i,
    Raw.map_from
      (fun x _ =>
         id ← Get x (js "productId");
         Normal (if strict_eq_string id pid
                 then Raw.with_quantity x (VNumber newQuantity) else x))
      i (List.map Raw.encode_item cart) =
    Normal (List.map Raw.encode_item
              (List.map (fun item => if bool_decide (productId item = pid)
                                     then Cart.with_quantity item newQuantity
                                     else item) cart))) as Hmap.
  { induction cart as [|item cart IH]; intros i; [done|].
    cbn [List.map Raw.map_from]. rewrite IH, Get_productId.
    cbn [mbind completion_bind strict_eq_string].
    by destruct (bool_decide _). }
  by rewrite Hmap.
Qed.

Lemma totalItems_encode cart :
  Raw.totalItems (Raw.encode cart) = Normal (VNumber (Cart.totalItems cart)).
Proof.
  unfold Raw.totalItems, Cart.totalItems, Raw.encode.
  cbn [Raw.elements_of mbind completion_bind].
  generalize 0%float.
  induction cart as [|item cart IH]; intros acc; [done|].
  cbn [List.map Raw.reduce fold_left]. rewrite Get_quantity.
  cbn [mbind completion_bind]. apply IH.
Qed.

Lemma totalPrice_encode cart :
  Raw.totalPrice (Raw.encode cart) = Normal (Cart.totalPrice cart).
Proof.
  unfold Raw.totalPrice, Cart.totalPrice.
  assert (Raw.totalPrice_number (Raw.encode cart) =
          Normal (VNumber (Cart.totalPrice_number cart))) as ->; [|done].
  unfold Raw.totalPrice_number, Cart.totalPrice_number, Raw.encode.
  cbn [Raw.elements_of mbind completion_bind].
  generalize 0%float.
  induction cart as [|item cart IH]; intros acc; [done|].
  cbn [List.map Raw.reduce fold_left]. rewrite Get_price, Get_quantity.
  cbn [mbind completion_bind]. apply IH.
Qed.

End Refinement.

(** ** Facts about carts *)

Section CartFacts.
Import CartLineItem.
Implicit Types (cart : list CartLineItem.t) (item : CartLineItem.t)
  (product : Product.t) (pid : jsstring).

Lemma addToCart_new cart product quantity :
  (forall item, item ∈ cart -> productId item <> Product._id product) ->
  Cart.addToCart cart product quantity =
  cart ++ [Cart.newItem product (default 1%float quantity)].
Proof.
  intros Hnone. unfold Cart.addToCart, Array.findIndex.
  rewrite findIndex_from_none; [done|].
  intros x Hx. apply bool_decide_eq_false. by apply Hnone.
Qed.

Lemma addToCart_found cart product quantity n item :
  cart !! n = Some item ->
  productId item = Product._id product ->
  (forall m item', (m < n)%nat -> cart !! m = Some item' ->
     productId item' <> Product._id product) ->
  Cart.addToCart cart product quantity = alter (Spec.bump_quantity quantity) n cart.
Proof.
  intros Hn Hid Hbefore. unfold Cart.addToCart, Array.findIndex.
  rewrite (findIndex_from_first _ _ 0 n item);
    [|done|by apply bool_decide_eq_true|
      intros m y Hm Hy; apply bool_decide_eq_false; eauto].
  assert ((0 + Z.of_nat n >? -1) = true) as -> by (apply Z.gtb_lt; lia).
  apply list_eq. intros m. unfold Array.map. rewrite map_from_lookup.
  destruct (decide (m = n)) as [->|Hne].
  - rewrite list_lookup_alter_eq, Hn. simpl. by rewrite Z.eqb_refl.
  - rewrite list_lookup_alter_ne by done.
    destruct (cart !! m); simpl; [|done].
    assert ((0 + Z.of_nat m =? 0 + Z.of_nat n) = false) as -> by (apply Z.eqb_neq; lia).
    done.
Qed.

(** [addToCart] either appends a new line item, or changes the quantity of
    the first line item that has the product's id. *)
Lemma addToCart_cases cart product quantity :
  ((forall item, item ∈ cart -> productId item <> Product._id product) /\
   Cart.addToCart cart product quantity =
   cart ++ [Cart.newItem product (default 1%float quantity)]) \/
  (exists n item,
     cart !! n = Some item /\ productId item = Product._id product /\
     (forall m item', (m < n)%nat -> cart !! m = Some item' ->
        productId item' <> Product._id product) /\
     Cart.addToCart cart product quantity = alter (Spec.bump_quantity quantity) n cart).
Proof.
  destruct (first_match (Spec.has_id product) cart) as [Hnone|(n & x & Hn & Hx & Hbefore)].
  - left. assert (forall item, item ∈ cart -> productId item <> Product._id product).
    { intros item Hin. specialize (Hnone item Hin). unfold Spec.has_id in Hnone.
      by apply bool_decide_eq_false in Hnone. }
    split; [done|]. by apply addToCart_new.
  - right. exists n, x.
    assert (productId x = Product._id product) by by apply bool_decide_eq_true in Hx.
    assert (forall m item', (m < n)%nat -> cart !! m = Some item' ->
              productId item' <> Product._id product).
    { intros m y Hm Hy. specialize (Hbefore m y Hm Hy). unfold Spec.has_id in Hbefore.
      by apply bool_decide_eq_false in Hbefore. }
    repeat split; [done..|]. by apply (addToCart_found _ _ _ n x).
Qed.

Lemma productId_alter_bump quantity n cart :
  productId <$> alter (Spec.bump_quantity quantity) n cart = productId <$> cart.
Proof.
  apply list_eq. intros m. rewrite !list_lookup_fmap.
  destruct (decide (m = n)) as [->|Hne].
  - rewrite list_lookup_alter_eq. by destruct (cart !! n).
  - by rewrite list_lookup_alter_ne.
Qed.

Lemma addToCart_unique cart product quantity :
  NoDup (productId <$> cart) ->
  NoDup (productId <$> Cart.addToCart cart product quantity).
Proof.
  intros Hnd.
  destruct (addToCart_cases cart product quantity)
    as [[Hnone ->]|(n & item & _ & _ & _ & ->)].
  - rewrite fmap_app. apply NoDup_app. repeat split; [done| |apply NoDup_singleton].
    intros pid Hin Hnew. apply list_elem_of_fmap in Hin as (item & -> & Hitem).
    apply list_elem_of_singleton in Hnew. by apply (Hnone item).
  - by rewrite productId_alter_bump.
Qed.

Lemma removeFromCart_unique cart pid :
  NoDup (productId <$> cart) ->
  NoDup (productId <$> Cart.removeFromCart cart pid).
Proof.
  intros Hnd. eapply sublist_NoDup; [exact Hnd|].
  apply fmap_sublist, sublist_filter.
Qed.

Lemma updateQuantity_productIds cart pid newQuantity :
  productId <$> Cart.updateQuantity cart pid newQuantity = productId <$> cart.
Proof.
  unfold Cart.updateQuantity. induction cart as [|item cart IH]; [done|].
  simpl. f_equal; [|done]. by case_bool_decide.
Qed.

End CartFacts.

(** ** Sequences of [addToCart] calls *)

Section AddToCartSequences.
Import CartLineItem.
Implicit Types (cart : list CartLineItem.t) (item : CartLineItem.t)
  (calls : list (Product.t * option float)) (pid : jsstring).

Lemma cart_after_snoc calls product quantity :
  Spec.cart_after (calls ++ [(product, quantity)]) =
  Cart.addToCart (Spec.cart_after calls) product quantity.
Proof. unfold Spec.cart_after. by rewrite fold_left_app. Qed.

Lemma quantities_passed_snoc pid calls product quantity :
  Spec.quantities_passed pid (calls ++ [(product, quantity)]) =
  Spec.quantities_passed pid calls ++
  (if decide (Product._id product = pid) then [default 1%float quantity] else []).
Proof.
  unfold Spec.quantities_passed. rewrite omap_app. f_equal. simpl.
  by destruct (decide _).
Qed.

Lemma sum_from_snoc q qs x :
  Spec.sum_from q (qs ++ [x]) = (Spec.sum_from q qs + x)%float.
Proof. unfold Spec.sum_from. by rewrite fold_left_app. Qed.

(** What holds of the cart after any sequence of calls. *)
Lemma cart_after_invariant calls :
  NoDup (productId <$> Spec.cart_after calls) /\
  (forall item, item ∈ Spec.cart_after calls ->
     exists q qs, Spec.quantities_passed (productId item) calls = q :: qs /\
                  quantity item = Spec.sum_from q qs) /\
  (forall pid, Spec.quantities_passed pid calls <> [] ->
     pid ∈ productId <$> Spec.cart_after calls).
Proof.
  induction calls as [|[product quantity] calls IH] using rev_ind.
  { repeat split; [apply NoDup_nil_2|intros item Hin; inversion Hin|done]. }
  destruct IH as (Hnd & Hsum & Hin).
  rewrite cart_after_snoc. set (cart := Spec.cart_after calls) in *.
  split; [by apply addToCart_unique|].
  destruct (addToCart_cases cart product quantity)
    as [[Hnone ->]|(n & item0 & Hn & Hid & _ & ->)].
  - split.
    + intros item [Hitem|Hitem%list_elem_of_singleton]%elem_of_app.
      * rewrite quantities_passed_snoc, decide_False, app_nil_r; [by apply Hsum|].
        intros Heq. by apply (Hnone item).
      * subst item. simpl. rewrite quantities_passed_snoc, decide_True by done.
        destruct (Spec.quantities_passed (Product._id product) calls) eqn:Hpassed.
        { by exists (default 1%float quantity), []. }
        exfalso. assert (Product._id product ∈ productId <$> cart) as Hmem.
        { apply Hin. by rewrite Hpassed. }
        apply list_elem_of_fmap in Hmem as (item & Heq & Hitem).
        by apply (Hnone item).
    + intros pid. rewrite quantities_passed_snoc, fmap_app, elem_of_app.
      destruct (decide (Product._id product = pid)) as [<-|Hne].
      * intros _. right. by apply list_elem_of_singleton.
      * rewrite app_nil_r. intros Hpassed. left. by apply Hin.
  - split.
    + intros item (m & Hm)%list_elem_of_lookup.
      destruct (decide (m = n)) as [->|Hne].
      * rewrite list_lookup_alter_eq, Hn in Hm. injection Hm as <-.
        destruct (Hsum item0) as (q & qs & Hpassed & Hq);
          [by eapply list_elem_of_lookup_2|].
        exists q, (qs ++ [default 1%float quantity]). simpl.
        rewrite quantities_passed_snoc, decide_True, Hpassed by done.
        split; [done|]. by rewrite sum_from_snoc, Hq.
      * rewrite list_lookup_alter_ne in Hm by done.
        rewrite quantities_passed_snoc, decide_False, app_nil_r;
          [apply Hsum; by eapply list_elem_of_lookup_2|].
        intros Heq. apply Hne. symmetry.
        apply (NoDup_lookup (productId <$> cart) n m (Product._id product));
          [done|by rewrite list_lookup_fmap, Hn; simpl; rewrite Hid
               |by rewrite list_lookup_fmap, Hm; simpl; rewrite Heq].
    + intros pid. rewrite productId_alter_bump, quantities_passed_snoc.
      destruct (decide (Product._id product = pid)) as [<-|Hne].
      * intros _. apply list_elem_of_fmap. exists item0.
        split; [done|by eapply list_elem_of_lookup_2].
      * rewrite app_nil_r. apply Hin.
Qed.

(** On carts: when every call works on the cart the previous one made,
    the cart holds at most one line item per product id; the quantity of a
    line item is the sum, taken left to right in host arithmetic, of the
    quantities the calls passed for its product id, an omitted quantity
    counting as 1; and every product passed has its line item. *)
Lemma cart_after_accumulates calls :
  NoDup (productId <$> Spec.cart_after calls) /\
  (forall item, item ∈ Spec.cart_after calls ->
     exists q qs, Spec.quantities_passed (productId item) calls = q :: qs /\
                  quantity item = Spec.sum_from q qs) /\
  (forall product quantity, (product, quantity) ∈ calls ->
     exists item, item ∈ Spec.cart_after calls /\
                  productId item = Product._id product).
Proof.
  destruct (cart_after_invariant calls) as (Hnd & Hsum & Hin).
  repeat split; [done..|].
  intros product quantity Hcall.
  assert (Product._id product ∈ productId <$> Spec.cart_after calls) as Hmem.
  { apply Hin. apply list_elem_of_split in Hcall as (before & after & ->).
    unfold Spec.quantities_passed. rewrite omap_app. simpl.
    rewrite decide_True by done. by destruct (omap _ before). }
  apply list_elem_of_fmap in Hmem as (item & Heq & Hitem). by exists item.
Qed.

End AddToCartSequences.

(** ** Single operations on a cart *)

Section CartOperations.
Import CartLineItem.
Implicit Types (cart : list CartLineItem.t) (item : CartLineItem.t)
  (product : Product.t) (pid : jsstring).

Lemma items_for_absent pid cart :
  (forall item, item ∈ cart -> productId item <> pid) ->
  Spec.items_for pid cart = [].
Proof.
  intros Hnone. unfold Spec.items_for.
  induction cart as [|item cart IH]; [done|].
  rewrite filter_cons, decide_False by (apply Hnone; left).
  apply IH. intros item' Hin. apply Hnone. by right.
Qed.

Lemma removeFromCart_absent cart pid item :
  item ∈ Cart.removeFromCart cart pid -> productId item <> pid.
Proof. unfold Cart.removeFromCart. rewrite list_elem_of_filter. tauto. Qed.

Lemma removeFromCart_id cart pid :
  (forall item, item ∈ cart -> productId item <> pid) ->
  Cart.removeFromCart cart pid = cart.
Proof.
  intros Hnone. unfold Cart.removeFromCart.
  induction cart as [|item cart IH]; [done|].
  rewrite filter_cons, decide_True by (apply Hnone; left).
  f_equal. apply IH. intros item' Hin. apply Hnone. by right.
Qed.

(** C10. When [addToCart] finds a line item for the product (the first one
    with its id), the cart keeps its length, that line item keeps its id,
    title, price, image and stock, whatever the product passed carries, its
    quantity grows by the quantity passed, and the line items at the other
    positions are the same. *)
Theorem addToCart_existing_changes_quantity_only cart product quantity n item :
  cart !! n = Some item ->
  productId item = Product._id product ->
  (forall m item', (m < n)%nat -> cart !! m = Some item' ->
     productId item' <> Product._id product) ->
  length (Cart.addToCart cart product quantity) = length cart /\
  (exists item',
     Cart.addToCart cart product quantity !! n = Some item' /\
     Spec.same_but_quantity item' item /\
     CartLineItem.quantity item' =
       (CartLineItem.quantity item + default 1 quantity)%float) /\
  (forall m, m <> n -> Cart.addToCart cart product quantity !! m = cart !! m).
Proof.
  intros Hn Hid Hbefore.
  rewrite (addToCart_found cart product quantity n item) by done.
  split; [apply length_alter|]. split.
  - exists (Spec.bump_quantity quantity item).
    rewrite list_lookup_alter_eq, Hn. by repeat split.
  - intros m Hm. by rewrite list_lookup_alter_ne.
Qed.

(** The cart of the witness: two line items, and the product of the second
    one passed with another title, price, image and stock. *)
Lemma addToCart_existing_changes_quantity_only_witness :
  let stored := {| productId := js "p2"; title := js "Pen"; price := 2.5;
                   imageUrl := js "pen.png"; stock := 10; quantity := 3 |} in
  let other := {| productId := js "p1"; title := js "Ink"; price := 9.5;
                  imageUrl := js "ink.png"; stock := 4; quantity := 1 |} in
  let passed := {| Product._id := js "p2"; Product.title := js "Pencil";
                   Product.price := 7; Product.imageUrl := js "new.png";
                   Product.stock := 0 |} in
  Cart.addToCart [other; stored] passed (Some 2%float) =
    [other; Cart.with_quantity stored 5%float] /\
  length (Cart.addToCart [other; stored] passed (Some 2%float)) = 2%nat.
Proof.
  intros stored other passed.
  destruct (addToCart_existing_changes_quantity_only
              [other; stored] passed (Some 2%float) 1 stored) as (Hlen & _ & _).
  - reflexivity.
  - reflexivity.
  - intros [|m] item' Hm Hitem; [|lia]. injection Hitem as <-.
    vm_compute. congruence.
  - split; [vm_compute; reflexivity|exact Hlen].
Defined.

(** On carts: adding a product to the cart its removal made appends the
    new line item built from the product. *)
Lemma addToCart_after_removeFromCart cart product quantity :
  let pid := Product._id product in
  let added := Cart.newItem product (default 1%float quantity) in
  Cart.addToCart (Cart.removeFromCart cart pid) product quantity =
    Cart.removeFromCart cart pid ++ [added] /\
  Spec.items_for pid (Cart.removeFromCart cart pid ++ [added]) = [added].
Proof.
  intros pid added. rewrite addToCart_new by (intros item; apply removeFromCart_absent).
  split; [done|].
  unfold Spec.items_for. rewrite filter_app, filter_cons, decide_True by done.
  fold (Spec.items_for pid (Cart.removeFromCart cart pid)).
  rewrite items_for_absent; [done|]. intros item. apply removeFromCart_absent.
Qed.

(** C6. [updateQuantity] keeps the length of the cart and every line item
    in its place; a line item with the given product id gets the new
    quantity as it was passed, whatever number it is, and keeps its other
    fields; a line item with another id is the same; when no line item has
    the id, the cart is the same; and the script, run on the host value of
    the cart, does not throw and returns the host value of that result. *)
Theorem updateQuantity_sets_quantity_verbatim cart pid newQuantity :
  length (Cart.updateQuantity cart pid newQuantity) = length cart /\
  (forall n item, cart !! n = Some item ->
     exists item',
       Cart.updateQuantity cart pid newQuantity !! n = Some item' /\
       Spec.same_but_quantity item' item /\
       quantity item' =
         (if decide (productId item = pid) then newQuantity else quantity item)) /\
  ((forall item, item ∈ cart -> productId item <> pid) ->
   Cart.updateQuantity cart pid newQuantity = cart) /\
  Raw.updateQuantity (Raw.encode cart) pid newQuantity =
    Js.Normal (Raw.encode (Cart.updateQuantity cart pid newQuantity)).
Proof.
  split; [|split; [|split; [|apply updateQuantity_encode]]];
    unfold Cart.updateQuantity; [apply length_map| |].
  - intros n item Hn.
    change (List.map ?f cart) with (f <$> cart).
    rewrite list_lookup_fmap, Hn. simpl.
    case_bool_decide; [rewrite decide_True by done|rewrite decide_False by done];
      eexists; by repeat split.
  - intros Hnone. induction cart as [|item cart IH]; [done|].
    simpl. rewrite bool_decide_eq_false_2 by (apply Hnone; left).
    f_equal. apply IH. intros item' Hin. apply Hnone. by right.
Qed.

(** C7. [removeFromCart] keeps the line items with another product id, and
    only those, in the order they had: when the cart is [before], one line
    item with the id, and [after], with no other line item of that id, the
    result is [before ++ after]; when no line item has the id, the cart is
    the same; and the script, run on the host value of the cart, does not
    throw and returns the host value of that result. *)
Theorem removeFromCart_removes_matching_only cart pid :
  (forall item, item ∈ Cart.removeFromCart cart pid <->
                item ∈ cart /\ productId item <> pid) /\
  Cart.removeFromCart cart pid `sublist_of` cart /\
  (forall before item after,
     cart = before ++ item :: after -> productId item = pid ->
     (forall other, other ∈ before ++ after -> productId other <> pid) ->
     Cart.removeFromCart cart pid = before ++ after) /\
  ((forall item, item ∈ cart -> productId item <> pid) ->
   Cart.removeFromCart cart pid = cart) /\
  Raw.removeFromCart (Raw.encode cart) pid =
    Js.Normal (Raw.encode (Cart.removeFromCart cart pid)).
Proof.
  split; [|split; [|split; [|split; [|apply removeFromCart_encode]]]].
  - intros item. unfold Cart.removeFromCart. rewrite list_elem_of_filter. tauto.
  - apply sublist_filter.
  - intros before item after -> Hid Hothers. unfold Cart.removeFromCart.
    rewrite filter_app, filter_cons, decide_False by (intros Hne; by apply Hne).
    rewrite <- filter_app. by apply removeFromCart_id.
  - apply removeFromCart_id.
Qed.

End CartOperations.

(** ** Numbers in fixed-point notation *)

Section NumberFacts.

Lemma digits_of_fuel f g n :
  0 <= n < 2 ^ Z.of_nat (S f) -> n < 2 ^ Z.of_nat (S g) ->
  Number.digits_of (S f) n = Number.digits_of (S g) n.
Proof.
  revert g n. induction f as [|f IH]; intros g n Hf Hg.
  - change (2 ^ Z.of_nat 1) with 2 in Hf. simpl.
    by assert ((n <? 10) = true) as -> by (apply Z.ltb_lt; lia).
  - cbn [Number.digits_of]. destruct (n <? 10) eqn:Hsmall; [done|].
    apply Z.ltb_ge in Hsmall. f_equal.
    destruct g as [|g].
    { change (2 ^ Z.of_nat 1) with 2 in Hg. lia. }
    assert (forall k, n < 2 ^ Z.of_nat (S (S k)) -> n / 10 < 2 ^ Z.of_nat (S k)) as Hdiv.
    { intros k Hk. apply Z.div_lt_upper_bound; [lia|].
      rewrite (Nat2Z.inj_succ (S k)), Z.pow_succ_r in Hk by lia. lia. }
    apply IH; [split; [apply Z.div_pos; lia|apply Hdiv; lia]|apply Hdiv; lia].
Qed.

Lemma digits_eq f n :
  0 <= n < 2 ^ Z.of_nat (S f) -> Number.digits n = Number.digits_of (S f) n.
Proof.
  intros Hn. unfold Number.digits. apply digits_of_fuel; [|lia].
  split; [lia|]. rewrite Nat2Z.inj_succ, Z2Nat.id by apply Z.log2_nonneg.
  destruct (decide (n = 0)) as [->|Hpos]; [done|].
  apply Z.log2_spec. lia.
Qed.

Lemma digits_small n : 0 <= n < 10 -> Number.digits n = [Number.digit n].
Proof.
  intros Hn. rewrite (digits_eq 3) by (change (2 ^ Z.of_nat 4) with 16; lia).
  cbn [Number.digits_of].
  assert ((n <? 10) = true) as -> by (apply Z.ltb_lt; lia).
  by rewrite Z.mod_small by lia.
Qed.

Lemma digits_step n :
  10 <= n -> Number.digits n = Number.digits (n / 10) ++ [Number.digit (n mod 10)].
Proof.
  intros Hn. unfold Number.digits at 1.
  assert (3 <= Z.log2 n) as Hlog by (apply (Z.log2_le_pow2 n 3); lia).
  destruct (Z.to_nat (Z.log2 n)) as [|f] eqn:Hf; [lia|].
  cbn [Number.digits_of].
  assert ((n <? 10) = false) as -> by (apply Z.ltb_ge; lia).
  f_equal. symmetry. apply digits_eq.
  split; [apply Z.div_pos; lia|].
  apply Z.div_lt_upper_bound; [lia|].
  assert (n < 2 ^ (Z.log2 n + 1)) by (apply Z.log2_spec; lia).
  replace (Z.of_nat (S f)) with (Z.log2 n) by lia.
  rewrite Z.pow_add_r in * by lia. lia.
Qed.

Lemma digits_nonempty n : 0 <= n -> (0 < length (Number.digits n))%nat.
Proof.
  intros Hn. destruct (decide (n < 10)).
  - rewrite digits_small by lia. simpl. lia.
  - rewrite digits_step, length_app by lia. simpl. lia.
Qed.

Lemma fixed_padded n pre a b :
  Number.zeros (2 + 1 - Z.of_nat (length (Number.digits n))) ++ Number.digits n =
    pre ++ [a; b] ->
  Number.fixed n 2 = pre ++ js "." ++ [a; b].
Proof.
  intros Hpad. unfold Number.fixed. cbv zeta. rewrite Hpad.
  change (2 =? 0) with false. cbv iota.
  rewrite length_app. simpl length.
  replace (Z.to_nat _) with (length pre) by lia.
  by rewrite take_app_length, drop_app_length.
Qed.

(** A natural number of hundredths, printed with two fraction digits. *)
Lemma fixed_two n :
  0 <= n -> Number.fixed n 2 = Spec.two_decimals false n.
Proof.
  intros Hn. unfold Spec.two_decimals. simpl app at 1.
  apply fixed_padded.
  destruct (decide (n < 10)) as [Hsmall|Hbig].
  { rewrite digits_small by lia. rewrite Z.div_small, (Z.div_small n 10) by lia.
    rewrite digits_small, (Z.mod_small n 10) by lia. reflexivity. }
  rewrite (digits_step n) by lia.
  destruct (decide (n < 100)) as [Hmid|Hlarge].
  { rewrite (digits_small (n / 10))
      by (split; [apply Z.div_pos|apply Z.div_lt_upper_bound]; lia).
    rewrite (Z.div_small n 100), digits_small, (Z.mod_small (n / 10)) by
      (try split; try apply Z.div_pos; try apply Z.div_lt_upper_bound; lia).
    reflexivity. }
  rewrite (digits_step (n / 10)) by (apply Z.div_le_lower_bound; lia).
  rewrite Z.div_div by lia. change (10 * 10) with 100.
  assert (0 < length (Number.digits (n / 100)))%nat as Hlen.
  { apply digits_nonempty, Z.div_pos; lia. }
  rewrite <- !app_assoc. simpl app at 3.
  replace (Number.zeros _) with (@nil N); [done|].
  unfold Number.zeros. rewrite !length_app. simpl.
  by replace (Z.to_nat _) with 0%nat by lia.
Qed.

Lemma value_nonneg m e : (0 <= Number.value m e)%Q.
Proof.
  unfold Number.value. apply Qmult_le_0_compat; [done|].
  by apply Qpower_0_le.
Qed.

Lemma nearest_nonneg q f : (0 <= q)%Q -> 0 <= Number.nearest q f.
Proof.
  intros Hq. unfold Number.nearest. change 0 with (Qfloor 0).
  apply Qfloor_resp_le.
  apply (Qle_trans _ (0 + 0)); [done|].
  apply Qplus_le_compat; [|done].
  apply Qmult_le_0_compat; [done|]. by apply Qpower_0_le.
Qed.

(** [toFixed(2)] of a finite number below [10^21] in magnitude: the
    nearest number of hundredths, the larger on a tie, in fixed-point
    notation. *)
Lemma toFixed_two x q :
  Spec.magnitude_of x = Some q -> (q < Number.pow10 21)%Q ->
  Number.toFixed x 2 = Spec.two_decimals (Spec.negative x) (Number.nearest q 2) /\
  0 <= Number.nearest q 2 /\
  (inject_Z (Number.nearest q 2) <= q * inject_Z 100 + (1 # 2) <
   inject_Z (Number.nearest q 2 + 1))%Q.
Proof.
  unfold Spec.magnitude_of, Spec.negative, Number.toFixed.
  intros Hq Hbound. split.
  - destruct (Prim2SF x) as [s| | |s m e]; try done; injection Hq as <-.
    + apply (fixed_two 0). lia.
    + destruct (Qle_bool _ _) eqn:Hle.
      { apply Qle_bool_iff in Hle. by apply Qlt_not_le in Hbound. }
      rewrite fixed_two by apply nearest_nonneg, value_nonneg.
      unfold Spec.two_decimals. by destruct s.
  - assert (0 <= q)%Q as Hpos.
    { destruct (Prim2SF x); try done; injection Hq as <-; [done|apply value_nonneg]. }
    split; [by apply nearest_nonneg|]. unfold Number.nearest.
    change (Number.pow10 2) with (inject_Z 100).
    split; [apply Qfloor_le|apply Qlt_floor].
Qed.

End NumberFacts.

(** ** Derived totals *)

Section Totals.
Import CartLineItem.
Implicit Types (cart : list CartLineItem.t) (item : CartLineItem.t).

Lemma fold_left_summands (f : CartLineItem.t -> float) cart start :
  fold_left (fun acc item => (acc + f item)%float) cart start =
  Spec.sum_from start (f <$> cart).
Proof.
  unfold Spec.sum_from. revert start.
  induction cart as [|item cart IH]; intros start; [done|apply IH].
Qed.

(** C5 (as the code has it). For every cart, [totalItems] is the sum of
    the quantities and the number behind [totalPrice] is the sum of price
    times quantity, both taken left to right in host arithmetic from 0.
    When that number is finite and below [10^21] in magnitude, [totalPrice]
    is a minus sign for a number below zero, the digits of an integer part,
    a point and exactly two digits, and it denotes the number of hundredths
    nearest to the number's magnitude, the larger one on a tie. When the
    number is not finite, or [10^21] or more in magnitude, [totalPrice] is
    what [toString] prints for it. *)
Theorem totals_are_sums_and_totalPrice_has_two_decimals cart :
  Cart.totalItems cart = Spec.sum_from 0%float (quantity <$> cart) /\
  Cart.totalPrice_number cart =
    Spec.sum_from 0%float ((fun item => price item * quantity item)%float <$> cart) /\
  (forall q,
     Spec.magnitude_of (Cart.totalPrice_number cart) = Some q ->
     (q < Number.pow10 21)%Q ->
     exists n,
       0 <= n /\
       (inject_Z n <= q * inject_Z 100 + (1 # 2) < inject_Z (n + 1))%Q /\
       Cart.totalPrice cart =
         Spec.two_decimals (Spec.negative (Cart.totalPrice_number cart)) n) /\
  (forall q,
     Spec.magnitude_of (Cart.totalPrice_number cart) = Some q ->
     (Number.pow10 21 <= q)%Q ->
     Cart.totalPrice cart = Number.toString (Cart.totalPrice_number cart)) /\
  (Spec.magnitude_of (Cart.totalPrice_number cart) = None ->
   Cart.totalPrice cart = Number.toString (Cart.totalPrice_number cart)).
Proof.
  split; [apply fold_left_summands|].
  split; [apply (fold_left_summands (fun item => price item * quantity item)%float)|].
  split; [|split].
  - intros q Hq Hbound.
    destruct (toFixed_two _ q Hq Hbound) as (Hfixed & Hpos & Hnear).
    by exists (Number.nearest q 2).
  - unfold Cart.totalPrice, Number.toFixed, Spec.magnitude_of.
    intros q. destruct (Prim2SF (Cart.totalPrice_number cart)) as [s|s| |s m e];
      try done; intros [= <-] Hbound.
    + by apply Qle_not_lt in Hbound.
    + by apply Qle_bool_iff in Hbound as ->.
  - unfold Cart.totalPrice, Number.toFixed, Spec.magnitude_of.
    by destruct (Prim2SF (Cart.totalPrice_number cart)).
Qed.

(** Two units at 9.995 each: the host's 9.995 lies below the decimal 9.995,
    and the total prints as 19.99. *)
Lemma totals_are_sums_and_totalPrice_has_two_decimals_witness :
  let cart := [{| productId := js "p1"; title := js "A"; price := 9.995;
                  imageUrl := js "x"; stock := 3; quantity := 2 |}] in
  Cart.totalItems cart = 2%float /\
  exists n, 0 <= n /\ Cart.totalPrice cart = Spec.two_decimals false n.
Proof.
  intros cart.
  destruct (totals_are_sums_and_totalPrice_has_two_decimals cart)
    as (Hitems & _ & Hfixed & _).
  destruct (Hfixed (Number.value 5626684784446013 (-48)))
    as (n & Hpos & _ & Hprice).
  - vm_compute. reflexivity.
  - vm_compute. reflexivity.
  - split; [rewrite Hitems; vm_compute; reflexivity|].
    exists n. split; [exact Hpos|exact Hprice].
Defined.

Example totalPrice_rounds_the_host_number :
  Cart.totalPrice [{| productId := js "p1"; title := js "A"; price := 9.995;
                      imageUrl := js "x"; stock := 3; quantity := 2 |}] = js "19.99" /\
  Cart.totalPrice [{| productId := js "p2"; title := js "B"; price := 1.005;
                      imageUrl := js "y"; stock := 1; quantity := 1 |}] = js "1.00" /\
  Cart.totalPrice [{| productId := js "p3"; title := js "C"; price := 0.125;
                      imageUrl := js "z"; stock := 1; quantity := 1 |}] = js "0.13" /\
  Cart.totalPrice [] = js "0.00".
Proof. vm_compute. done. Qed.

Lemma two_decimals_has_point minus n : 46%N ∈ Spec.two_decimals minus n.
Proof.
  unfold Spec.two_decimals. rewrite !elem_of_app. right. right. left.
  by apply list_elem_of_singleton.
Qed.

(** C5 fails as stated: a total of [10^21] prints in exponent notation,
    with no fraction digits at all. *)
Lemma totalPrice_of_a_large_total_counterexample :
  let cart := [{| productId := js "p1"; title := js "A"; price := 1e21;
                  imageUrl := js "x"; stock := 3; quantity := 1 |}] in
  Cart.totalPrice cart = js "1e+21" /\
  forall minus n, Cart.totalPrice cart <> Spec.two_decimals minus n.
Proof.
  intros cart.
  assert (Cart.totalPrice cart = js "1e+21") as Hprice by (vm_compute; reflexivity).
  split; [exact Hprice|].
  intros minus n Heq. pose proof (two_decimals_has_point minus n) as Hpoint.
  rewrite <- Heq, Hprice in Hpoint. vm_compute in Hpoint.
  repeat (apply elem_of_cons in Hpoint as [Hpoint|Hpoint]; [discriminate|]).
  inversion Hpoint.
Qed.

End Totals.

(** ** The fuel of [JSON.parse] *)

Section ParseFuel.
Import Js JSON.

Lemma skip_ws_length s : (length (skip_ws s) <= length s)%nat.
Proof.
  induction s as [|c r IH]; [done|]. simpl. destruct (is_ws c); simpl; lia.
Qed.

Lemma after_length c s r : after c s = Some r -> length s = S (length r).
Proof.
  destruct s as [|d s]; [done|]. simpl. destruct (d =? c)%N; [|done].
  by intros [= ->].
Qed.

Lemma span_digits_length s ds r :
  span_digits s = (ds, r) -> length s = (length ds + length r)%nat.
Proof.
  revert ds r. induction s as [|c s IH]; intros ds r; simpl.
  - by intros [= <- <-].
  - destruct (is_digit c); [|by intros [= <- <-]].
    destruct (span_digits s) as [ds' r']. intros [= <- <-].
    simpl. by rewrite (IH ds' r').
Qed.

Lemma string_body_length s body rest :
  string_body s = Some (body, rest) -> (length rest < length s)%nat.
Proof.
  assert (forall n t body' rest', (length t <= n)%nat ->
            string_body t = Some (body', rest') -> (length rest' < length t)%nat)
    as Hall; [|by apply (Hall (length s))].
  clear. intros n. induction n as [|n IHn]; intros s body rest Hn.
  { destruct s; [done|simpl in Hn; lia]. }
  assert (forall t body' rest', (length t < length s)%nat ->
            string_body t = Some (body', rest') -> (length rest' < length t)%nat)
    as IH by (intros t ? ? Ht; apply IHn; lia).
  destruct s as [|c r]; [done|]. cbn [string_body].
  destruct (c =? 34)%N; [intros [= <- <-]; simpl; lia|].
  destruct (c =? 92)%N.
  - destruct r as [|e r1]; [done|]. destruct (e =? 117)%N.
    + destruct r1 as [|h1 [|h2 [|h3 [|h4 r2]]]]; try done.
      destruct (hex4 h1 h2 h3 h4); [|done].
      destruct (string_body r2) as [[body' rest']|] eqn:Hbody; [|done].
      intros [= <- <-]. apply IH in Hbody; simpl in *; lia.
    + destruct (escape_unit e); [|done].
      destruct (string_body r1) as [[body' rest']|] eqn:Hbody; [|done].
      intros [= <- <-]. apply IH in Hbody; simpl in *; lia.
  - destruct (c <? 32)%N; [done|].
    destruct (string_body r) as [[body' rest']|] eqn:Hbody; [|done].
    intros [= <- <-]. apply IH in Hbody; simpl in *; lia.
Qed.

Lemma strip_prefix_length w s rest :
  strip_prefix w s = Some rest -> length s = (length w + length rest)%nat.
Proof.
  revert s. induction w as [|a w IH]; intros [|b s]; simpl; try done.
  - by intros [= <-].
  - by intros [= <-].
  - destruct (a =? b)%N; [|done]. intros H. by rewrite (IH s).
Qed.

Lemma number_from_length neg s x rest :
  number_from neg s = Some (x, rest) -> (length rest < length s)%nat.
Proof.
  unfold number_from.
  destruct (span_digits s) as [int r] eqn:Hint.
  apply span_digits_length in Hint.
  destruct int as [|d int]; [done|]. simpl in Hint.
  destruct (_ || _); [done|].
  intros H. apply bind_Some in H as ([frac r'] & Hfrac & H).
  assert (length r' <= length r)%nat.
  { destruct (after 46 r) as [r1|] eqn:Hpoint.
    - apply after_length in Hpoint.
      destruct (span_digits r1) as [[|? ?] ?] eqn:Hf; [done|].
      apply span_digits_length in Hf. simplify_eq. simpl in *. lia.
    - by simplify_eq. }
  destruct r' as [|c r1]; [simplify_eq; simpl in *; lia|].
  destruct (_ || _); [|simplify_eq; simpl in *; lia].
  assert (exists eneg r2, (length r2 <= length r1)%nat /\
            match span_digits r2 with
            | ([], _) => None
            | (ds, r3) =>
                Some (decimal neg (d :: int) frac
                        (if eneg : bool then - nat_val ds else nat_val ds), r3)
            end = Some (x, rest)) as (eneg & r2 & Hr2 & Hexp).
  { destruct (after 45 r1) as [r'|] eqn:H1; [|destruct (after 43 r1) as [r'|] eqn:H2].
    - apply after_length in H1. exists true, r'. split; [lia|done].
    - apply after_length in H2. exists false, r'. split; [lia|done].
    - by exists false, r1. }
  destruct (span_digits r2) as [[|? ?] ?] eqn:Hd; [done|].
  apply span_digits_length in Hd. simplify_eq. simpl in *. lia.
Qed.

Lemma number_length s x rest :
  number s = Some (x, rest) -> (length rest < length s)%nat.
Proof.
  unfold number. destruct (after 45 s) as [r|] eqn:Hminus.
  - apply after_length in Hminus. intros H%number_from_length. lia.
  - apply number_from_length.
Qed.

(** What succeeds with some fuel reads at least one character, and
    succeeds with any fuel that is twice the number of characters read. *)
Lemma fuel_enough g :
  (forall s v rest, value_at g s = Some (v, rest) ->
     (length rest < length s)%nat /\
     forall f, (2 * (length s - length rest) <= f)%nat ->
               value_at f s = Some (v, rest)) /\
  (forall s vs rest, elements g s = Some (vs, rest) ->
     (length rest < length s)%nat /\
     forall f, (2 * (length s - length rest) <= f)%nat ->
               elements f s = Some (vs, rest)) /\
  (forall acc s props rest, members g acc s = Some (props, rest) ->
     (length rest < length s)%nat /\
     forall f, (2 * (length s - length rest) <= f)%nat ->
               members f acc s = Some (props, rest)).
Proof.
  induction g as [|g (IHv & IHe & IHm)]; [done|].
  split; [|split].
  - intros s v rest. cbn [value_at]. destruct s as [|c r]; [done|].
    destruct (c =? 34)%N eqn:H34.
    { intros Hb. apply bind_Some in Hb as ([body rest'] & Hbody & Hb).
      simpl in Hb. injection Hb as <- <-.
      pose proof (string_body_length _ _ _ Hbody). simpl. split; [lia|].
      intros [|f] Hf; [lia|]. cbn [value_at]. by rewrite H34, Hbody. }
    destruct (c =? 91)%N eqn:H91.
    { pose proof (skip_ws_length r).
      destruct (after 93 (skip_ws r)) as [rest'|] eqn:Hclose.
      - intros [= <- <-]. pose proof (after_length _ _ _ Hclose). simpl.
        split; [lia|]. intros [|f] Hf; [lia|]. cbn [value_at].
        by rewrite H34, H91, Hclose.
      - intros Hb. apply bind_Some in Hb as ([elems rest'] & Helems & Hb).
        simpl in Hb. injection Hb as <- <-.
        destruct (IHe _ _ _ Helems) as [Hlen Hfuel]. simpl. split; [lia|].
        intros [|f] Hf; [lia|]. cbn [value_at].
        rewrite H34, H91, Hclose, Hfuel by lia. done. }
    destruct (c =? 123)%N eqn:H123.
    { pose proof (skip_ws_length r).
      destruct (after 125 (skip_ws r)) as [rest'|] eqn:Hclose.
      - intros [= <- <-]. pose proof (after_length _ _ _ Hclose). simpl.
        split; [lia|]. intros [|f] Hf; [lia|]. cbn [value_at].
        by rewrite H34, H91, H123, Hclose.
      - intros Hb. apply bind_Some in Hb as ([props rest'] & Hprops & Hb).
        simpl in Hb. injection Hb as <- <-.
        destruct (IHm _ _ _ _ Hprops) as [Hlen Hfuel]. simpl. split; [lia|].
        intros [|f] Hf; [lia|]. cbn [value_at].
        rewrite H34, H91, H123, Hclose, Hfuel by lia. done. }
    destruct (c =? 110)%N eqn:H110.
    { intros Hb. apply bind_Some in Hb as (rest' & Hword & Hb).
      simpl in Hb. injection Hb as <- <-.
      pose proof (strip_prefix_length _ _ _ Hword) as Hlen. simpl in Hlen.
      simpl. split; [lia|]. intros [|f] Hf; [lia|]. cbn [value_at].
      by rewrite H34, H91, H123, H110, Hword. }
    destruct (c =? 116)%N eqn:H116.
    { intros Hb. apply bind_Some in Hb as (rest' & Hword & Hb).
      simpl in Hb. injection Hb as <- <-.
      pose proof (strip_prefix_length _ _ _ Hword) as Hlen. simpl in Hlen.
      simpl. split; [lia|]. intros [|f] Hf; [lia|]. cbn [value_at].
      by rewrite H34, H91, H123, H110, H116, Hword. }
    destruct (c =? 102)%N eqn:H102.
    { intros Hb. apply bind_Some in Hb as (rest' & Hword & Hb).
      simpl in Hb. injection Hb as <- <-.
      pose proof (strip_prefix_length _ _ _ Hword) as Hlen. simpl in Hlen.
      simpl. split; [lia|]. intros [|f] Hf; [lia|]. cbn [value_at].
      by rewrite H34, H91, H123, H110, H116, H102, Hword. }
    intros Hb. apply bind_Some in Hb as ([x rest'] & Hnumber & Hb).
    simpl in Hb. injection Hb as <- <-.
    pose proof (number_length _ _ _ Hnumber) as Hlen. simpl in Hlen.
    simpl. split; [lia|]. intros [|f] Hf; [lia|]. cbn [value_at].
    by rewrite H34, H91, H123, H110, H116, H102, Hnumber.
  - intros s vs rest. cbn [elements].
    intros Hb. apply bind_Some in Hb as ([v r] & Hvalue & Hrest). simpl in Hrest.
    destruct (IHv _ _ _ Hvalue) as [Hlen Hfuel].
    pose proof (skip_ws_length s). pose proof (skip_ws_length r).
    destruct (after 44 (skip_ws r)) as [r1|] eqn:Hcomma.
    + apply bind_Some in Hrest as ([vs' rest'] & Hmore & Hrest). simpl in Hrest.
      injection Hrest as <- <-.
      destruct (IHe _ _ _ Hmore) as [Hlen' Hfuel'].
      pose proof (after_length _ _ _ Hcomma).
      split; [lia|]. intros [|f] Hf; [lia|]. cbn [elements].
      rewrite Hfuel by lia. cbn. rewrite Hcomma, Hfuel' by lia. done.
    + destruct (after 93 (skip_ws r)) as [rest'|] eqn:Hclose; [|done].
      injection Hrest as <- <-. pose proof (after_length _ _ _ Hclose).
      split; [lia|]. intros [|f] Hf; [lia|]. cbn [elements].
      rewrite Hfuel by lia. cbn. by rewrite Hcomma, Hclose.
  - intros acc s props rest. cbn [members].
    intros Hb. apply bind_Some in Hb as (r & Hquote & Hb).
    apply bind_Some in Hb as ([key r1] & Hkey & Hb). simpl in Hb.
    apply bind_Some in Hb as (r2 & Hcolon & Hb).
    apply bind_Some in Hb as ([v r3] & Hvalue & Hrest). simpl in Hrest.
    destruct (IHv _ _ _ Hvalue) as [Hlen Hfuel].
    pose proof (skip_ws_length s). pose proof (skip_ws_length r1).
    pose proof (skip_ws_length r2). pose proof (skip_ws_length r3).
    pose proof (after_length _ _ _ Hquote). pose proof (after_length _ _ _ Hcolon).
    pose proof (string_body_length _ _ _ Hkey).
    destruct (after 44 (skip_ws r3)) as [r4|] eqn:Hcomma.
    + destruct (IHm _ _ _ _ Hrest) as [Hlen' Hfuel'].
      pose proof (after_length _ _ _ Hcomma).
      split; [lia|]. intros [|f] Hf; [lia|]. cbn [members].
      rewrite Hquote. cbn. rewrite Hkey. cbn. rewrite Hcolon. cbn.
      rewrite Hfuel by lia. cbn. rewrite Hcomma. apply Hfuel'. lia.
    + destruct (after 125 (skip_ws r3)) as [rest'|] eqn:Hclose; [|done].
      injection Hrest as <- <-. pose proof (after_length _ _ _ Hclose).
      split; [lia|]. intros [|f] Hf; [lia|]. cbn [members].
      rewrite Hquote. cbn. rewrite Hkey. cbn. rewrite Hcolon. cbn.
      rewrite Hfuel by lia. cbn. by rewrite Hcomma, Hclose.
Qed.

(** The fuel [JSON.parse] gives itself is enough: more fuel never changes
    what it reads, so that it fails on a text only for its syntax. *)
Theorem parse_fuel_is_enough text fuel :
  (2 * length text + 2 <= fuel)%nat ->
  value_at fuel (skip_ws text) = value_at (2 * length text + 2) (skip_ws text).
Proof.
  intros Hfuel. pose proof (skip_ws_length text) as Hws.
  destruct (value_at fuel (skip_ws text)) as [[v rest]|] eqn:Hmore.
  - destruct (fuel_enough fuel) as (Hv & _ & _).
    destruct (Hv _ _ _ Hmore) as [_ Henough]. symmetry. apply Henough. lia.
  - destruct (value_at (2 * length text + 2) (skip_ws text)) as [[v rest]|] eqn:Hless;
      [|done].
    destruct (fuel_enough (2 * length text + 2)) as (Hv & _ & _).
    destruct (Hv _ _ _ Hless) as [_ Henough].
    rewrite Henough in Hmore by lia. done.
Qed.

End ParseFuel.

(** ** The provider's effects *)

Section ProviderFacts.
Import Js Provider.
Implicit Types (st : state) (text : jsstring) (v : value).

Lemma parse_empty : JSON.parse [] = Throw SyntaxError.
Proof. reflexivity. Qed.

Lemma restore_on_failure st text e :
  storage st = Some text -> text <> [] -> JSON.parse text = Throw e ->
  restore st =
  {| cartItems := cartItems st; loading := false; storage := None;
     mounted := mounted st; crashed := crashed st;
     trace := trace st ++ [GetItem; RemoveItem; SetLoading false] |}.
Proof.
  intros Hstored Hne Hparse. unfold restore, restore_try, getItem.
  rewrite Hstored, bool_decide_eq_true_2, Hparse by done.
  unfold setLoading, removeItem, setCartItems; cbn.
  by rewrite <- !app_assoc.
Qed.

Lemma restore_on_success st text v :
  storage st = Some text -> JSON.parse text = Normal v ->
  restore st =
  {| cartItems := v; loading := false; storage := Some text;
     mounted := mounted st; crashed := crashed st;
     trace := trace st ++ [GetItem; SetLoading false] |}.
Proof.
  intros Hstored Hparse. unfold restore, restore_try, getItem.
  assert (text <> []) as Hne.
  { intros ->. rewrite parse_empty in Hparse. discriminate. }
  rewrite Hstored, bool_decide_eq_true_2, Hparse by done.
  unfold setLoading, removeItem, setCartItems; cbn.
  by rewrite <- !app_assoc.
Qed.

Lemma restore_on_nothing st :
  storage st = None \/ storage st = Some [] ->
  restore st =
  {| cartItems := cartItems st; loading := false; storage := storage st;
     mounted := mounted st; crashed := crashed st;
     trace := trace st ++ [GetItem; SetLoading false] |}.
Proof.
  unfold restore, restore_try, getItem.
  intros [->| ->]; unfold setLoading; cbn; by rewrite <- !app_assoc.
Qed.

(** C3 (as the code has it). When the stored string is not empty and does
    not parse, the first effect catches the exception: it leaves the cart
    empty, removes the entry and then sets [loading] to false. The render
    that follows does not throw either, and its second effect stores the
    empty cart. *)
Theorem restore_discards_an_unparseable_entry text e :
  text <> [] -> JSON.parse text = Throw e ->
  restore (init (Some text)) =
    {| cartItems := VArray []; loading := false; storage := None;
       mounted := false; crashed := false;
       trace := [GetItem; RemoveItem; SetLoading false] |} /\
  mount (init (Some text)) =
    {| cartItems := VArray []; loading := false; storage := Some (js "[]");
       mounted := true; crashed := false;
       trace := [GetItem; RemoveItem; SetLoading false; SetItem (js "[]")] |}.
Proof.
  intros Hne Hparse.
  pose proof (restore_on_failure (init (Some text)) text e eq_refl Hne Hparse) as Hrestore.
  split; [exact Hrestore|].
  unfold mount. rewrite Hrestore. reflexivity.
Qed.

Lemma restore_discards_an_unparseable_entry_witness :
  storage (restore (init (Some (js "not json")))) = None /\
  cartItems (restore (init (Some (js "not json")))) = VArray [] /\
  loading (restore (init (Some (js "not json")))) = false.
Proof.
  destruct (restore_discards_an_unparseable_entry (js "not json") SyntaxError)
    as [-> _].
  - discriminate.
  - vm_compute. reflexivity.
  - repeat split.
Defined.

(** C3 fails as stated: the empty string does not parse as JSON, yet the
    first effect takes it for no entry at all and leaves it in the
    storage. *)
Lemma restore_keeps_an_empty_entry_counterexample :
  JSON.parse [] = Throw SyntaxError /\
  storage (restore (init (Some []))) = Some [] /\
  trace (restore (init (Some []))) = [GetItem; SetLoading false].
Proof. repeat split. Qed.

(** C9. Whatever value the stored string parses to, the first effect makes
    it the cart as it is, leaves the entry in place and sets [loading] to
    false; the next render computes the totals from that value directly:
    when the value is not an array the render throws a [TypeError], when it
    is the host value of line items, with or without repeated product ids,
    the totals are those of all of them. *)
Theorem restore_assigns_the_parsed_value st text v :
  storage st = Some text -> JSON.parse text = Normal v ->
  cartItems (restore st) = v /\
  storage (restore st) = Some text /\
  loading (restore st) = false /\
  render (restore st) =
    (totalItems ← Raw.totalItems v;
     totalPrice ← Raw.totalPrice v;
     Normal {| ctx_cartItems := v; ctx_totalItems := totalItems;
               ctx_totalPrice := totalPrice; ctx_loading := false |}) /\
  ((forall elems, v <> VArray elems) -> render (restore st) = Throw TypeError) /\
  (forall items, v = Raw.encode items ->
     render (restore st) =
     Normal {| ctx_cartItems := v;
               ctx_totalItems := VNumber (Cart.totalItems items);
               ctx_totalPrice := Cart.totalPrice items;
               ctx_loading := false |}).
Proof.
  intros Hstored Hparse. rewrite (restore_on_success st text v) by done.
  repeat split; unfold render; cbn [cartItems loading].
  - intros Hshape. destruct v; try done. by destruct (Hshape elems).
  - intros items ->. by rewrite totalItems_encode, totalPrice_encode.
Qed.

End ProviderFacts.

(** ** Runs of the provider *)

Section ProviderRuns.
Import Js Provider CartLineItem.
Implicit Types (st : state) (text : jsstring) (v : value) (a : action)
  (tr : list event).

Lemma writes_follow_restore_nil : Spec.writes_follow_restore [].
Proof. intros [|? ?] ? ? Heq; discriminate. Qed.

(** A trace grows at its end: by a write once [setLoading(false)] is in it,
    by anything else at any time. *)
Lemma writes_follow_restore_snoc tr e :
  Spec.writes_follow_restore tr ->
  (forall text, e = SetItem text -> SetLoading false ∈ tr) ->
  Spec.writes_follow_restore (tr ++ [e]).
Proof.
  intros Htr He before text after Heq.
  destruct after as [|last after _] using rev_ind.
  - apply app_inj_tail in Heq as [-> ->]. by apply (He text).
  - rewrite app_comm_cons, app_assoc in Heq.
    apply app_inj_tail in Heq as [-> _]. by apply (Htr before text after).
Qed.

Lemma rerender_consistent stored st :
  Spec.consistent stored st -> Spec.consistent stored (rerender st).
Proof.
  intros (Htr & Hloading & Hloaded). unfold rerender, persist, crash, setItem.
  destruct (render st); [|done].
  destruct (negb (loading st)) eqn:Hl; [|done].
  apply negb_true_iff in Hl. destruct (Hloaded Hl) as [Hin Hm].
  split; [|split]; cbn; [|by rewrite Hl|by rewrite elem_of_app; auto].
  apply writes_follow_restore_snoc; auto.
Qed.

Lemma setCartItems_consistent stored st v :
  Spec.consistent stored st -> Spec.consistent stored (setCartItems v st).
Proof. done. Qed.

Lemma dispatch_consistent stored st calls :
  Spec.consistent stored st -> Spec.consistent stored (dispatch calls st).
Proof.
  intros Hst. unfold dispatch. destruct (last_set _ _ _); [|done].
  by apply rerender_consistent, setCartItems_consistent.
Qed.

Lemma restore_trace st :
  exists events,
    trace (restore st) = trace st ++ GetItem :: events ++ [SetLoading false] /\
    (events = [] \/ events = [RemoveItem]) /\
    loading (restore st) = false /\ mounted (restore st) = mounted st.
Proof.
  unfold restore, restore_try, getItem.
  destruct (storage st) as [text|].
  - destruct (bool_decide (text <> [])).
    + destruct (JSON.parse text).
      * exists []. unfold setLoading, setCartItems; cbn. by rewrite <- !app_assoc; auto.
      * exists [RemoveItem]. unfold setLoading, removeItem; cbn.
        by rewrite <- !app_assoc; auto.
    + exists []. unfold setLoading; cbn. by rewrite <- !app_assoc; auto.
  - exists []. unfold setLoading; cbn. by rewrite <- !app_assoc; auto.
Qed.

Lemma mount_consistent stored st :
  Spec.consistent stored st -> mounted st = false -> Spec.consistent stored (mount st).
Proof.
  intros (Htr & Hloading & Hloaded) Hm.
  assert (loading st = true) as Hl.
  { destruct (loading st) eqn:Hl; [done|]. destruct Hloaded as [_ ?]; congruence. }
  destruct (Hloading Hl) as (Hnil & _ & _).
  unfold mount. rewrite Hl. unfold persist at 1. cbn [negb].
  destruct (restore_trace st) as (events & Htrace & Hevents & Hfalse & _).
  apply rerender_consistent. rewrite Hnil in Htrace.
  split; [|split]; cbn; rewrite ?Hfalse, ?Htrace; [|done|].
  - change (GetItem :: events ++ [SetLoading false])
      with (([GetItem] ++ events) ++ [SetLoading false]).
    apply writes_follow_restore_snoc; [|done].
    destruct Hevents as [-> | ->]; intros [|? [|? ?]] ? ? Heq; try discriminate;
      destruct l; discriminate.
  - intros _. split; [|done]. simpl. rewrite elem_of_cons, elem_of_app.
    right. right. by apply list_elem_of_singleton.
Qed.

Lemma step_consistent stored st a :
  Spec.consistent stored st -> Spec.consistent stored (step st a).
Proof.
  intros Hst. unfold step. destruct (crashed st); [done|].
  destruct a as [|calls]; [|by apply dispatch_consistent].
  destruct (mounted st) eqn:Hm; [done|]. by apply mount_consistent.
Qed.

Lemma run_consistent stored actions :
  Spec.consistent stored (run (init stored) actions).
Proof.
  unfold run. assert (Spec.consistent stored (init stored)) as Hinit.
  { split; [apply writes_follow_restore_nil|]. by split. }
  revert Hinit. generalize (init stored).
  induction actions as [|a actions IH]; intros st Hst; [done|].
  apply IH. by apply step_consistent.
Qed.

(** C4. In every run of the provider, whatever the storage held and
    whatever the handlers are called with, before or after the first
    effect: every [setItem] comes after the first effect has called
    [setLoading(false)]; and as long as [loading] is true nothing was
    written: the trace is empty and the storage is what it was. *)
Theorem no_write_before_restore_completes stored actions :
  Spec.writes_follow_restore (trace (run (init stored) actions)) /\
  (loading (run (init stored) actions) = true ->
   trace (run (init stored) actions) = [] /\
   storage (run (init stored) actions) = stored).
Proof.
  destruct (run_consistent stored actions) as (Htr & Hloading & _).
  split; [done|]. intros Hl. by destruct (Hloading Hl) as (? & ? & _).
Qed.

End ProviderRuns.

(** ** What the effects and a render leave as it is *)

Section ProviderFields.
Import Js Provider CartLineItem.
Implicit Types (st : state) (text : jsstring) (v : value) (a : action)
  (cart : list CartLineItem.t).

Lemma rerender_fields st :
  cartItems (rerender st) = cartItems st /\
  mounted (rerender st) = mounted st /\
  loading (rerender st) = loading st /\
  (loading st = true -> storage (rerender st) = storage st).
Proof.
  unfold rerender, persist, crash, setItem.
  destruct (render st); [|by repeat split].
  destruct (loading st) eqn:Hl; cbn; rewrite ?Hl; by repeat split.
Qed.

Lemma restore_fields st :
  mounted (restore st) = mounted st /\
  (cartItems (restore st) = cartItems st \/
   exists text, storage st = Some text /\
                JSON.parse text = Normal (cartItems (restore st))).
Proof.
  unfold restore, restore_try, getItem.
  destruct (storage st) as [text|]; [|by auto].
  destruct (bool_decide (text <> [])); [|by auto].
  destruct (JSON.parse text) eqn:Hparse; [|by auto].
  split; [done|]. right. by exists text.
Qed.

Lemma mount_fields st :
  cartItems (mount st) = cartItems (persist (cartItems st) (loading st) (restore st)) /\
  mounted (mount st) = true.
Proof.
  unfold mount.
  destruct (rerender_fields
    {| cartItems := cartItems (persist (cartItems st) (loading st) (restore st));
       loading := loading (persist (cartItems st) (loading st) (restore st));
       storage := storage (persist (cartItems st) (loading st) (restore st));
       mounted := true;
       crashed := crashed (persist (cartItems st) (loading st) (restore st));
       trace := trace (persist (cartItems st) (loading st) (restore st)) |})
    as (-> & -> & _ & _).
  done.
Qed.

End ProviderFields.

(** ** Events, persistence and clearing *)

Section ProviderEvents.
Import Js Provider CartLineItem.
Implicit Types (st : state) (v : value) (c : call) (calls : list call).

Lemma last_set_snoc v calls c pending w :
  Forall (fun c' => exists w', invoke v c' = Normal w') calls ->
  invoke v c = Normal w ->
  last_set v (calls ++ [c]) pending = Some w.
Proof.
  intros Hcalls Hc. revert pending.
  induction Hcalls as [|c' calls [w' Hc'] _ IH]; intros pending; simpl.
  - by rewrite Hc.
  - rewrite Hc'. apply IH.
Qed.

(** X1. The calls a consumer makes in one event all work on the cart of
    the same render: when none of them throws, the cart after the event is
    what the last call computed from the cart before the event, and what
    the earlier calls set is overwritten. *)
Theorem calls_of_one_event_overwrite st calls c v :
  crashed st = false ->
  Forall (fun c' => exists w, invoke (cartItems st) c' = Normal w) calls ->
  invoke (cartItems st) c = Normal v ->
  cartItems (step st (Event (calls ++ [c]))) = v.
Proof.
  intros Halive Hcalls Hc. unfold step, dispatch. rewrite Halive.
  rewrite (last_set_snoc _ calls c None v) by done.
  by destruct (rerender_fields (setCartItems v st)) as (-> & _).
Qed.

(** One product added twice: in two events the quantities add up, in one
    event the second call does not see the first. *)
Lemma calls_of_one_event_overwrite_witness :
  let pen := {| Product._id := js "p2"; Product.title := js "Pen";
                Product.price := 2.5; Product.imageUrl := js "pen.png";
                Product.stock := 10 |} in
  cartItems (step (mount (init None))
               (Event [AddToCart pen (Some 1%float); AddToCart pen (Some 1%float)])) =
    Raw.encode [Cart.newItem pen 1%float] /\
  cartItems (run (mount (init None))
               [Event [AddToCart pen (Some 1%float)];
                Event [AddToCart pen (Some 1%float)]]) =
    Raw.encode [Cart.newItem pen 2%float].
Proof.
  intros pen. split; [|vm_compute; reflexivity].
  apply (calls_of_one_event_overwrite (mount (init None))
           [AddToCart pen (Some 1%float)] (AddToCart pen (Some 1%float))).
  - reflexivity.
  - constructor; [|constructor]. eexists. vm_compute. reflexivity.
  - vm_compute. reflexivity.
Defined.

Lemma rerender_alive st :
  crashed (rerender st) = false ->
  crashed st = false /\
  (loading st = false ->
   storage (rerender st) =
   Some (default (js "undefined") (JSON.stringify (cartItems st)))).
Proof.
  unfold rerender, persist, crash, setItem.
  destruct (render st); [|done].
  destruct (loading st) eqn:Hl; cbn; by intros ->.
Qed.

Lemma step_mirrors st a :
  Spec.mirrored st -> Spec.mirrored (step st a).
Proof.
  unfold Spec.mirrored. intros Hst. unfold step.
  destruct (crashed st) eqn:Halive; [by rewrite Halive|].
  destruct a as [|calls].
  - destruct (mounted st); [by intros; apply Hst|]. unfold mount.
    set (st' := Build_state _ _ _ _ _ _).
    destruct (rerender_fields st') as (-> & _ & -> & _).
    intros Hl Hc. by apply rerender_alive.
  - unfold dispatch. destruct (last_set _ _ _) as [v|]; [|by intros; apply Hst].
    destruct (rerender_fields (setCartItems v st)) as (-> & _ & -> & _).
    intros Hl Hc. by apply rerender_alive.
Qed.

(** X2. Once [loading] is false, and as long as no render has thrown, the
    stored entry is [JSON.stringify] of the cart: every change of the cart
    is written through by the render that follows it. *)
Theorem storage_mirrors_the_cart stored actions :
  Spec.mirrored (run (init stored) actions).
Proof.
  unfold run. assert (Spec.mirrored (init stored)) as Hinit by done.
  revert Hinit. generalize (init stored).
  induction actions as [|a actions IH]; intros st Hst; [done|].
  apply IH. by apply step_mirrors.
Qed.

(** X3. An event whose last call is [clearCart], the calls before it not
    throwing, empties the cart, whatever it held and whatever those calls
    set: the render that follows counts no item and a total price of 0.00,
    and once loading is over its effect stores the empty cart. *)
Theorem clearCart_empties_the_cart st calls :
  crashed st = false ->
  Forall (fun c => exists w, invoke (cartItems st) c = Normal w) calls ->
  cartItems (step st (Event (calls ++ [ClearCart]))) = VArray [] /\
  crashed (step st (Event (calls ++ [ClearCart]))) = false /\
  render (step st (Event (calls ++ [ClearCart]))) =
    Normal {| ctx_cartItems := VArray []; ctx_totalItems := VNumber 0;
              ctx_totalPrice := js "0.00"; ctx_loading := loading st |} /\
  (loading st = false ->
   storage (step st (Event (calls ++ [ClearCart]))) = Some (js "[]")).
Proof.
  intros Halive Hcalls. unfold step, dispatch. rewrite Halive.
  rewrite (last_set_snoc _ calls ClearCart None Raw.clearCart) by done.
  unfold rerender.
  assert (render (setCartItems Raw.clearCart st) =
          Normal {| ctx_cartItems := VArray []; ctx_totalItems := VNumber 0;
                    ctx_totalPrice := js "0.00"; ctx_loading := loading st |})
    as Hrender by reflexivity.
  rewrite Hrender. unfold persist, setItem.
  cbn [setCartItems cartItems loading].
  destruct (loading st); cbn [negb]; by repeat split.
Qed.

(** A provider over a stored cart of one line item: an event that adds a
    product and then clears leaves nothing, in the cart and in storage. *)
Lemma clearCart_empties_the_cart_witness :
  let text := json_text
    "[{'productId':'p1','title':'A','price':5,'imageUrl':'x','stock':3,'quantity':2}]" in
  let pen := {| Product._id := js "p2"; Product.title := js "Pen";
                Product.price := 2.5; Product.imageUrl := js "pen.png";
                Product.stock := 10 |} in
  let st := mount (init (Some text)) in
  cartItems st =
    Raw.encode [{| productId := js "p1"; title := js "A"; price := 5;
                   imageUrl := js "x"; stock := 3; quantity := 2 |}] /\
  cartItems (step st (Event ([AddToCart pen None] ++ [ClearCart]))) = VArray [] /\
  storage (step st (Event ([AddToCart pen None] ++ [ClearCart]))) = Some (js "[]").
Proof.
  intros text pen st.
  destruct (clearCart_empties_the_cart st [AddToCart pen None])
    as (Hcart & _ & _ & Hstored).
  - reflexivity.
  - constructor; [|constructor]. eexists. vm_compute. reflexivity.
  - split; [vm_compute; reflexivity|]. split; [exact Hcart|].
    apply Hstored. reflexivity.
Defined.

End ProviderEvents.

(** ** Worked cases *)

Section WorkedCases.
Import Js Provider CartLineItem.

(** A stored number is not a cart, and is made the cart all the same; the
    render that follows throws. *)
Lemma restore_assigns_the_parsed_value_witness :
  cartItems (restore (init (Some (js "5")))) = VNumber 5 /\
  render (restore (init (Some (js "5")))) = Throw TypeError.
Proof.
  destruct (restore_assigns_the_parsed_value
              (init (Some (js "5"))) (js "5") (VNumber 5))
    as (Hcart & _ & _ & _ & Hthrow & _).
  - reflexivity.
  - vm_compute. reflexivity.
  - split; [exact Hcart|]. apply Hthrow. intros elems. discriminate.
Defined.

(** Two stored line items with one product id are both restored, and both
    counted. *)
Example restore_counts_repeated_line_items :
  let text := json_text
    "[{'productId':'p1','title':'A','price':5,'imageUrl':'x','stock':3,'quantity':2},
      {'productId':'p1','title':'A','price':5,'imageUrl':'x','stock':3,'quantity':1}]" in
  (ctx_totalItems <$> render (mount (init (Some text))),
   ctx_totalPrice <$> render (mount (init (Some text)))) =
  (Normal (VNumber 3), Normal (js "15.00")).
Proof. vm_compute. reflexivity. Qed.

(** The entry of the specification's example restores to its one line
    item, with two items in total. *)
Example restore_of_one_line_item :
  let text := json_text
    "[{'productId':'p1','title':'A','price':5,'imageUrl':'x','stock':3,'quantity':2}]" in
  cartItems (mount (init (Some text))) =
    Raw.encode [{| productId := js "p1"; title := js "A"; price := 5;
                   imageUrl := js "x"; stock := 3; quantity := 2 |}] /\
  ctx_totalItems <$> render (mount (init (Some text))) = Normal (VNumber 2).
Proof. vm_compute. done. Qed.

(** A product added twice, once without a quantity, between two additions
    of another product. *)
Example addToCart_three_calls :
  let ink := {| Product._id := js "p1"; Product.title := js "Ink";
                Product.price := 9.5; Product.imageUrl := js "ink.png";
                Product.stock := 4 |} in
  let pen := {| Product._id := js "p2"; Product.title := js "Pen";
                Product.price := 2.5; Product.imageUrl := js "pen.png";
                Product.stock := 10 |} in
  Spec.cart_after [(ink, None); (pen, Some 2%float); (ink, Some 3%float)] =
  [Cart.newItem ink 4%float; Cart.newItem pen 2%float].
Proof. vm_compute. reflexivity. Qed.

(** Zero and negative quantities are stored as they are. *)
Example updateQuantity_zero_and_negative :
  let item := {| productId := js "p1"; title := js "A"; price := 5;
                 imageUrl := js "x"; stock := 3; quantity := 2 |} in
  Cart.updateQuantity [item] (js "p1") 0%float = [Cart.with_quantity item 0%float] /\
  Cart.updateQuantity [item] (js "p1") (-3)%float = [Cart.with_quantity item (-3)%float] /\
  Cart.updateQuantity [item] (js "p9") 7%float = [item].
Proof. vm_compute. done. Qed.

Example removeFromCart_middle :
  let item (pid : string) := {| productId := js pid; title := js "A"; price := 5;
                                imageUrl := js "x"; stock := 3; quantity := 2 |} in
  let cart := [item "p1"; item "p2"; item "p3"]%string in
  Cart.removeFromCart cart (js "p2") = [item "p1"; item "p3"]%string /\
  Cart.removeFromCart cart (js "p9") = cart.
Proof. vm_compute. done. Qed.

(** Handlers called before the first effect change the cart and write
    nothing; the first effect then finds nothing stored and the render
    after it stores the cart. *)
Example handlers_before_the_first_effect :
  let pen := {| Product._id := js "p2"; Product.title := js "Pen";
                Product.price := 2.5; Product.imageUrl := js "pen.png";
                Product.stock := 10 |} in
  trace (run (init None) [Event [AddToCart pen None]]) = [] /\
  trace (run (init None) [Event [AddToCart pen None]; Mount]) =
    [GetItem; SetLoading false;
     SetItem (json_text
       "[{'productId':'p2','title':'Pen','price':2.5,'imageUrl':'pen.png','stock':10,'quantity':1}]")].
Proof. vm_compute. done. Qed.

End WorkedCases.

(** ** The stored text of a cart *)

Section StoredText.
Import Js JSON.
Implicit Types (s t rest : jsstring) (c : N).

Lemma hex_digit_val n : (n < 16)%N -> hex_val (hex_digit n) = Some (Z.of_N n).
Proof.
  intros Hn.
  assert (exists k, (k < 16)%nat /\ n = N.of_nat k) as (k & Hk & ->)
    by (exists (N.to_nat n); lia).
  do 16 (destruct k as [|k]; [reflexivity|]). lia.
Qed.

Lemma hex4_digits c :
  (c < 65536)%N ->
  hex4 (hex_digit (c / 4096 mod 16)) (hex_digit (c / 256 mod 16))
       (hex_digit (c / 16 mod 16)) (hex_digit (c mod 16)) = Some c.
Proof.
  intros Hc. unfold hex4.
  rewrite !hex_digit_val by (apply N.mod_lt; lia).
  f_equal.
  pose proof (N.div_mod c 16). pose proof (N.div_mod (c / 16) 16).
  pose proof (N.div_mod (c / 256) 16).
  pose proof (N.mod_lt c 16). pose proof (N.mod_lt (c / 16) 16).
  pose proof (N.mod_lt (c / 256) 16).
  assert (c / 256 = c / 16 / 16)%N as E1 by (by rewrite N.Div0.div_div).
  assert (c / 4096 = c / 256 / 16)%N as E2 by (by rewrite N.Div0.div_div).
  assert (c / 4096 < 16)%N by (apply N.Div0.div_lt_upper_bound; lia).
  rewrite (N.mod_small (c / 4096) 16) by lia.
  rewrite <- E2 in *. rewrite <- E1 in *. lia.
Qed.

(** An escaped code unit reads back as the code unit. *)
Lemma string_body_quote_unit c t :
  (c < 65536)%N ->
  string_body (quote_unit c ++ t) =
  (fun '(body, rest) => (c :: body, rest)) <$> string_body t.
Proof.
  intros Hc.
  assert (string_body (unicode_escape c ++ t) =
          (fun '(body, rest) => (c :: body, rest)) <$> string_body t) as Hescape.
  { unfold unicode_escape. cbn [js app map list_ascii_of_string N_of_ascii].
    cbn [string_body]. change (92 =? 34)%N with false. change (92 =? 92)%N with true.
    change (117 =? 117)%N with true. cbv iota.
    rewrite hex4_digits by done. by destruct (string_body t) as [[??]|]. }
  unfold quote_unit.
  repeat match goal with
         | |- context [(c =? ?k)%N] =>
             let H := fresh "H" in
             destruct (c =? k)%N eqn:H;
             [apply N.eqb_eq in H as ->;
              try vm_compute (js _); cbn [app string_body N.eqb Pos.eqb escape_unit];
              by destruct (string_body t) as [[??]|]|]
         end.
  destruct (_ || _) eqn:Hesc; [exact Hescape|].
  apply orb_false_iff in Hesc as [[Hctl _]%orb_false_iff _].
  cbn [app string_body].
  repeat match goal with H : (c =? _)%N = false |- _ => rewrite H; clear H end.
  rewrite Hctl. by destruct (string_body t) as [[??]|].
Qed.

(** The text [JSON.stringify] writes for a string reads back as the
    string. *)
Lemma string_body_quote_body s rest :
  Spec.code_units s ->
  string_body (quote_body s ++ 34%N :: rest) = Some (s, rest).
Proof.
  assert (forall n s, (length s <= n)%nat -> Spec.code_units s ->
            string_body (quote_body s ++ 34%N :: rest) = Some (s, rest)) as Hall;
    [|by apply (Hall (length s))].
  clear s. intros n. induction n as [|n IH]; intros [|c [|d s]] Hn Hs;
    try (simpl in Hn; lia).
  - reflexivity.
  - reflexivity.
  - apply Forall_cons in Hs as [Hc _]. cbn [quote_body].
    by rewrite string_body_quote_unit.
  - pose proof Hs as Hs'. apply Forall_cons in Hs as [Hc Hs].
    pose proof Hs as Hs2. apply Forall_cons in Hs2 as [Hd Hs2].
    change (quote_body (c :: d :: s)) with
      (if is_high_surrogate c && is_low_surrogate d
       then c :: d :: quote_body s else quote_unit c ++ quote_body (d :: s)).
    destruct (_ && _) eqn:Hpair.
    + apply andb_true_iff in Hpair as [Hhigh Hlow].
      unfold is_high_surrogate, is_low_surrogate in *.
      apply andb_true_iff in Hhigh as [Hh1%N.leb_le Hh2%N.leb_le].
      apply andb_true_iff in Hlow as [Hl1%N.leb_le Hl2%N.leb_le].
      cbn [app string_body].
      assert ((c =? 34) = false)%N as -> by (apply N.eqb_neq; lia).
      assert ((c =? 92) = false)%N as -> by (apply N.eqb_neq; lia).
      assert ((c <? 32) = false)%N as -> by (apply N.ltb_ge; lia).
      assert ((d =? 34) = false)%N as -> by (apply N.eqb_neq; lia).
      assert ((d =? 92) = false)%N as -> by (apply N.eqb_neq; lia).
      assert ((d <? 32) = false)%N as -> by (apply N.ltb_ge; lia).
      rewrite (IH s); [done|simpl in *; lia|done].
    + rewrite <- app_assoc, string_body_quote_unit by done.
      rewrite IH; [done|simpl in *; lia|done].
Qed.

(** Digits read the same before a character that is not a digit. *)
Lemma span_digits_app s t ds r :
  span_digits s = (ds, r) ->
  (forall c t', t = c :: t' -> is_digit c = false) ->
  span_digits (s ++ t) = (ds, r ++ t).
Proof.
  intros Hs Ht. revert ds r Hs. induction s as [|d s IH]; intros ds r; simpl.
  - intros [= <- <-]. destruct t as [|c t']; [done|]. simpl.
    by rewrite (Ht c t').
  - destruct (is_digit d); [|by intros [= <- <-]].
    destruct (span_digits s) as [ds' r']. intros [= <- <-].
    by rewrite (IH ds' r').
Qed.

Lemma number_from_app neg s x c t :
  number_from neg s = Some (x, []) -> c = 44%N \/ c = 125%N ->
  number_from neg (s ++ c :: t) = Some (x, c :: t).
Proof.
  intros Hs Hc. unfold number_from in *.
  assert (forall u ds r, span_digits u = (ds, r) ->
            span_digits (u ++ c :: t) = (ds, r ++ c :: t)) as Hspan.
  { intros u ds r Hu. apply span_digits_app; [done|].
    intros c' t' [= <- <-]. by destruct Hc as [-> | ->]. }
  destruct (span_digits s) as [int r] eqn:Hint.
  rewrite (Hspan _ _ _ Hint).
  destruct (_ || _); [done|].
  apply bind_Some in Hs as ([frac r'] & Hfrac & Hs).
  assert (match after 46 (r ++ c :: t) with
          | Some r1 =>
              match span_digits r1 with
              | ([], _) => None
              | (frac, r2) => Some (frac, r2)
              end
          | None => Some ([], r ++ c :: t)
          end = Some (frac, r' ++ c :: t)) as ->.
  { destruct r as [|d r1].
    - simpl in Hfrac. injection Hfrac as <- <-. by destruct Hc as [-> | ->].
    - simpl in *. destruct (d =? 46)%N.
      + destruct (span_digits r1) as [frac' r2] eqn:Hf.
        rewrite (Hspan _ _ _ Hf). destruct frac'; [done|]. by injection Hfrac as <- <-.
      + by injection Hfrac as <- <-. }
  cbn [mbind option_bind].
  destruct r' as [|e r1].
  - injection Hs as <-. simpl. by destruct Hc as [-> | ->].
  - simpl. destruct (_ || _); [|by injection Hs].
    destruct r1 as [|sgn r2]; [done|].
    assert (forall u, match span_digits u with
                      | ([], _) => None
                      | (ds, r3) =>
                          Some (decimal neg int frac (nat_val ds), r3)
                      end = Some (x, []) ->
                      match span_digits (u ++ c :: t) with
                      | ([], _) => None
                      | (ds, r3) =>
                          Some (decimal neg int frac (nat_val ds), r3)
                      end = Some (x, c :: t)) as Hpos.
    { intros u Hu. destruct (span_digits u) as [ds r3] eqn:Hd.
      rewrite (Hspan _ _ _ Hd). destruct ds; [done|]. by injection Hu as <- ->. }
    assert (forall u, match span_digits u with
                      | ([], _) => None
                      | (ds, r3) =>
                          Some (decimal neg int frac (- nat_val ds), r3)
                      end = Some (x, []) ->
                      match span_digits (u ++ c :: t) with
                      | ([], _) => None
                      | (ds, r3) =>
                          Some (decimal neg int frac (- nat_val ds), r3)
                      end = Some (x, c :: t)) as Hneg.
    { intros u Hu. destruct (span_digits u) as [ds r3] eqn:Hd.
      rewrite (Hspan _ _ _ Hd). destruct ds; [done|]. by injection Hu as <- ->. }
    simpl in *. destruct (sgn =? 45)%N; [by apply Hneg|].
    destruct (sgn =? 43)%N; [by apply Hpos|]. by apply (Hpos (sgn :: r2)).
Qed.

Lemma number_app s x c t :
  number s = Some (x, []) -> c = 44%N \/ c = 125%N ->
  number (s ++ c :: t) = Some (x, c :: t).
Proof.
  intros Hs Hc. unfold number in *. destruct s as [|d s].
  - by vm_compute in Hs.
  - simpl in *. destruct (d =? 45)%N; [by apply number_from_app|].
    by apply (number_from_app false (d :: s)).
Qed.

Lemma reads_back_finite x : Spec.reads_back x -> Spec.finite x = true.
Proof.
  intros Hx. unfold Spec.finite.
  destruct (Prim2SF x) as [s|s| |s m e] eqn:Hsf; try done; exfalso;
    unfold Spec.reads_back, Number.toString in Hx; rewrite Hsf in Hx;
    [destruct s|]; vm_compute in Hx; discriminate.
Qed.

Lemma stringify_number x : stringify (VNumber x) = Some (Spec.number_text x).
Proof.
  unfold Spec.number_text, Spec.finite. cbn [stringify].
  by destruct (Prim2SF x).
Qed.

Lemma stringify_encode_item item :
  stringify (Raw.encode_item item) = Some (Spec.item_text item).
Proof.
  unfold Raw.encode_item.
  change (stringify (VObject ?props))
    with (Some (js "{" ++
                join (js ",")
                  (omap (fun kv => (fun t => quote kv.1 ++ js ":" ++ t) <$> stringify kv.2)
                     props) ++
                js "}")).
  cbn [omap list_omap fst snd]. rewrite !stringify_number.
  cbn [stringify fmap option_fmap option_map join]. unfold Spec.item_text.
  by rewrite <- !app_assoc.
Qed.

Lemma stringify_encode cart :
  stringify (Raw.encode cart) = Some (Spec.cart_text cart).
Proof.
  unfold Raw.encode, Spec.cart_text. cbn [stringify].
  assert (map (fun e => default (js "null") (stringify e))
            (List.map Raw.encode_item cart) = Spec.item_text <$> cart) as ->; [|done].
  induction cart as [|item cart IH]; [done|].
  cbn [map List.map fmap list_fmap]. rewrite stringify_encode_item.
  by rewrite IH.
Qed.

Lemma value_at_string g s rest :
  Spec.code_units s ->
  value_at (S g) (quote s ++ rest) = Some (VString s, rest).
Proof.
  intros Hs. unfold quote. rewrite <- !app_assoc. cbn [app value_at N.eqb Pos.eqb].
  by rewrite string_body_quote_body.
Qed.

(** The text of a number starts with a digit or a minus sign. *)
Lemma reads_back_head x :
  Spec.reads_back x ->
  exists d s, Number.toString x = d :: s /\ (d = 45%N \/ is_digit d = true).
Proof.
  unfold Spec.reads_back, number. destruct (Number.toString x) as [|d s]; [done|].
  intros Hx. exists d, s. split; [done|]. simpl in Hx.
  destruct (d =? 45)%N eqn:Hd; [left; by apply N.eqb_eq|]. right.
  unfold number_from in Hx. simpl in Hx. by destruct (is_digit d).
Qed.

Lemma value_at_number g x c t :
  Spec.reads_back x -> c = 44%N \/ c = 125%N ->
  value_at (S g) (Number.toString x ++ c :: t) = Some (VNumber x, c :: t) /\
  skip_ws (Number.toString x ++ c :: t) = Number.toString x ++ c :: t.
Proof.
  intros Hx Hc. pose proof (number_app _ _ c t Hx Hc) as Hnumber.
  destruct (reads_back_head x Hx) as (d & s & Heq & Hd). rewrite Heq in *.
  assert (is_ws d = false /\ (d =? 34) = false /\ (d =? 91) = false /\
          (d =? 123) = false /\ (d =? 110) = false /\ (d =? 116) = false /\
          (d =? 102) = false)%N as (Hws & H1 & H2 & H3 & H4 & H5 & H6).
  { destruct Hd as [-> |Hd]; [done|]. unfold is_digit, is_ws in *.
    apply andb_true_iff in Hd as [?%N.leb_le ?%N.leb_le].
    repeat split; rewrite ?orb_false_iff; repeat split; apply N.eqb_neq; lia. }
  split.
  - cbn [app value_at]. rewrite H1, H2, H3, H4, H5, H6.
    change (d :: s ++ c :: t) with ((d :: s) ++ c :: t). by rewrite Hnumber.
  - cbn [app skip_ws]. by rewrite Hws.
Qed.

(** The text of a number, or [null] in its place, reads back. *)
Lemma value_at_number_text g x c t :
  (Spec.finite x = true -> Spec.reads_back x) -> c = 44%N \/ c = 125%N ->
  value_at (S g) (Spec.number_text x ++ c :: t) =
    Some (Spec.restored_number x, c :: t) /\
  skip_ws (Spec.number_text x ++ c :: t) = Spec.number_text x ++ c :: t.
Proof.
  intros Hx Hc. unfold Spec.number_text, Spec.restored_number.
  destruct (Spec.finite x); [by apply value_at_number; auto|done].
Qed.

(** One property of an object, before a comma or the closing brace. *)
Lemma members_step g acc key vtext v c more :
  Spec.code_units key -> c = 44%N \/ c = 125%N ->
  skip_ws (vtext ++ c :: more) = vtext ++ c :: more ->
  value_at g (vtext ++ c :: more) = Some (v, c :: more) ->
  members (S g) acc (quote key ++ js ":" ++ vtext ++ c :: more) =
  if (c =? 44)%N then members g (define_prop key v acc) more
  else Some (define_prop key v acc, more).
Proof.
  intros Hkey Hc Hws Hv. unfold quote. change (js ":") with [58%N].
  rewrite <- !app_assoc.
  cbn [members app skip_ws is_ws N.eqb Pos.eqb orb after mbind option_bind].
  rewrite string_body_quote_body by done.
  cbn [mbind option_bind skip_ws is_ws N.eqb Pos.eqb orb after].
  rewrite Hws, Hv. by destruct Hc as [-> | ->].
Qed.

Lemma members_string g acc key s c more :
  Spec.code_units key -> Spec.code_units s -> c = 44%N \/ c = 125%N ->
  members (S (S g)) acc (quote key ++ js ":" ++ quote s ++ c :: more) =
  if (c =? 44)%N then members (S g) (define_prop key (VString s) acc) more
  else Some (define_prop key (VString s) acc, more).
Proof.
  intros Hkey Hs Hc. apply members_step; [done..| |by apply value_at_string].
  reflexivity.
Qed.

Lemma members_number g acc key x c more :
  Spec.code_units key -> (Spec.finite x = true -> Spec.reads_back x) ->
  c = 44%N \/ c = 125%N ->
  members (S (S g)) acc (quote key ++ js ":" ++ Spec.number_text x ++ c :: more) =
  if (c =? 44)%N then members (S g) (define_prop key (Spec.restored_number x) acc) more
  else Some (define_prop key (Spec.restored_number x) acc, more).
Proof.
  intros Hkey Hx Hc. destruct (value_at_number_text g x c more Hx Hc) as [Hv Hws].
  by apply members_step.
Qed.

Lemma quote_head s t :
  skip_ws (quote s ++ t) = quote s ++ t /\ after 125 (quote s ++ t) = None.
Proof. done. Qed.

Lemma code_units_js (a : string) : Spec.code_units (js a).
Proof.
  unfold js. apply Forall_forall. intros c (b & <- & _)%list_elem_of_In%in_map_iff.
  pose proof (N_ascii_bounded b). lia.
Qed.

Lemma code_units_json_text (a : string) : Spec.code_units (json_text a).
Proof.
  unfold json_text. apply Forall_forall.
  intros c (b & <- & Hb%list_elem_of_In)%list_elem_of_In%in_map_iff.
  pose proof (code_units_js a) as Ha. unfold Spec.code_units in Ha.
  rewrite Forall_forall in Ha.
  specialize (Ha b Hb). destruct (b =? 39)%N; lia.
Qed.

(** The text of a line item reads back as the line item. *)
Lemma value_at_item_text g item rest :
  Spec.persistable item ->
  value_at (S (S (S (S (S (S (S (S g)))))))) (Spec.item_text item ++ rest) =
  Some (Spec.restored_item item, rest).
Proof.
  intros (Hid & Htitle & Himage & Hprice & Hstock & Hquantity).
  unfold Spec.item_text. change (js "{") with [123%N]. change (js ",") with [44%N].
  change (js "}") with [125%N].
  rewrite <- !app_assoc. cbn [app value_at N.eqb Pos.eqb].
  destruct (quote_head (js "productId")
              (js ":" ++ quote (CartLineItem.productId item) ++ 44%N ::
               quote (js "title") ++ js ":" ++ quote (CartLineItem.title item) ++ 44%N ::
               quote (js "price") ++ js ":" ++
               Spec.number_text (CartLineItem.price item) ++ 44%N ::
               quote (js "imageUrl") ++ js ":" ++
               quote (CartLineItem.imageUrl item) ++ 44%N ::
               quote (js "stock") ++ js ":" ++
               Spec.number_text (CartLineItem.stock item) ++ 44%N ::
               quote (js "quantity") ++ js ":" ++
               Spec.number_text (CartLineItem.quantity item) ++ 125%N :: rest))
    as [-> ->].
  rewrite members_string by (auto using code_units_js).
  rewrite members_string by (auto using code_units_js).
  rewrite members_number by (auto using code_units_js).
  rewrite members_string by (auto using code_units_js).
  rewrite members_number by (auto using code_units_js).
  rewrite members_number by (auto using code_units_js).
  reflexivity.
Qed.

Lemma value_at_item_text_fuel f item rest :
  Spec.persistable item -> (8 <= f)%nat ->
  value_at f (Spec.item_text item ++ rest) = Some (Spec.restored_item item, rest).
Proof.
  intros Hitem Hf. do 8 (destruct f as [|f]; [lia|]). by apply value_at_item_text.
Qed.

Lemma elements_cart_text f item cart rest :
  Forall Spec.persistable (item :: cart) -> (length cart + 9 <= f)%nat ->
  elements f (join (js ",") (Spec.item_text <$> item :: cart) ++ 93%N :: rest) =
  Some (Spec.restored_item <$> item :: cart, rest).
Proof.
  revert f item. induction cart as [|item' cart IH]; intros f item Hcart Hf;
    apply Forall_cons in Hcart as [Hitem Hcart];
    (destruct f as [|f]; [lia|]).
  - cbn [elements fmap list_fmap join].
    change (skip_ws (Spec.item_text item ++ 93%N :: rest))
      with (Spec.item_text item ++ 93%N :: rest).
    rewrite value_at_item_text_fuel by (done || simpl in Hf; lia). done.
  - change (join (js ",") (Spec.item_text <$> item :: item' :: cart))
      with (Spec.item_text item ++ [44%N] ++
            join (js ",") (Spec.item_text <$> item' :: cart)).
    rewrite <- !app_assoc. cbn [elements].
    change (skip_ws (Spec.item_text item ++ ?t)) with (Spec.item_text item ++ t).
    rewrite value_at_item_text_fuel by (done || simpl in Hf; lia).
    cbn [mbind option_bind app skip_ws is_ws after N.eqb Pos.eqb orb].
    rewrite (IH f item') by (done || simpl in *; lia). done.
Qed.

Lemma join_head item cart t :
  skip_ws (join (js ",") (Spec.item_text <$> item :: cart) ++ t) =
    join (js ",") (Spec.item_text <$> item :: cart) ++ t /\
  after 93 (join (js ",") (Spec.item_text <$> item :: cart) ++ t) = None.
Proof. by destruct cart. Qed.

(** The text of a cart reads back as the cart. *)
Lemma value_at_cart_text cart :
  Forall Spec.persistable cart ->
  value_at (length cart + 9) (Spec.cart_text cart) =
  Some (VArray (Spec.restored_item <$> cart), []).
Proof.
  intros Hcart. unfold Spec.cart_text. change (js "[") with [91%N].
  change (js "]") with [93%N]. replace (length cart + 9)%nat with (S (length cart + 8)) by lia.
  cbn [app value_at N.eqb Pos.eqb].
  destruct cart as [|item cart]; [done|].
  destruct (join_head item cart [93%N]) as [-> ->].
  rewrite elements_cart_text by (done || simpl; lia). done.
Qed.

Lemma parse_cart_text cart :
  Forall Spec.persistable cart ->
  parse (Spec.cart_text cart) = Normal (VArray (Spec.restored_item <$> cart)).
Proof.
  intros Hcart. unfold parse.
  change (skip_ws (Spec.cart_text cart)) with (Spec.cart_text cart).
  destruct (fuel_enough (length cart + 9)) as (Hv & _ & _).
  destruct (Hv _ _ _ (value_at_cart_text cart Hcart)) as [_ ->]; [done|simpl; lia].
Qed.

Lemma restored_storable cart :
  Forall Spec.storable cart ->
  Forall Spec.persistable cart /\
  VArray (Spec.restored_item <$> cart) = Raw.encode cart.
Proof.
  intros Hcart. unfold Raw.encode. split.
  - eapply Forall_impl; [exact Hcart|].
    intros item (? & ? & ? & ? & ? & ?). by repeat split.
  - f_equal. induction Hcart as [|item cart Hitem _ IH]; [done|].
    cbn [fmap list_fmap List.map]. f_equal; [|exact IH].
    destruct Hitem as (_ & _ & _ & Hp%reads_back_finite & Hs%reads_back_finite &
                       Hq%reads_back_finite).
    unfold Spec.restored_item, Spec.restored_number, Raw.encode_item.
    by rewrite Hp, Hs, Hq.
Qed.

End StoredText.

(** ** Sessions: what the provider asks of the storage *)

Section Sessions.
Import Js Provider CartLineItem.
Implicit Types (st : state) (cart : list CartLineItem.t) (c : call)
  (calls : list call) (a : action) (v : value).

Lemma invoke_encode cart c :
  exists cart', invoke (Raw.encode cart) c = Normal (Raw.encode cart').
Proof.
  destruct c as [product quantity|pid|pid newQuantity|]; simpl.
  - eexists. apply addToCart_encode.
  - eexists. apply removeFromCart_encode.
  - eexists. apply updateQuantity_encode.
  - by exists [].
Qed.

Lemma last_set_encode cart calls pending v :
  (forall w, pending = Some w -> exists cart', w = Raw.encode cart') ->
  last_set (Raw.encode cart) calls pending = Some v ->
  exists cart', v = Raw.encode cart'.
Proof.
  revert pending. induction calls as [|c calls IH]; intros pending Hpending; simpl.
  - apply Hpending.
  - destruct (invoke_encode cart c) as [cart' ->].
    apply IH. intros w [= <-]. by exists cart'.
Qed.

(** The render of a cart of line items does not throw. *)
Lemma rerender_encode st cart :
  cartItems st = Raw.encode cart ->
  rerender st = persist (cartItems st) (loading st) st.
Proof.
  intros Hcart. unfold rerender, render.
  by rewrite Hcart, totalItems_encode, totalPrice_encode.
Qed.

Lemma restore_calls st :
  trace (restore st) =
  trace st ++ [GetItem] ++
  (if Spec.unparseable (storage st) then [RemoveItem] else []) ++ [SetLoading false].
Proof.
  unfold restore, restore_try, getItem, Spec.unparseable.
  destruct (storage st) as [text|]; cbn [fst snd].
  - destruct (bool_decide (text <> [])); cbn [andb].
    + destruct (JSON.parse text); unfold setLoading, removeItem, setCartItems; cbn;
        by rewrite <- !app_assoc.
    + unfold setLoading; cbn. by rewrite <- !app_assoc.
  - unfold setLoading; cbn. by rewrite <- !app_assoc.
Qed.

Lemma restore_flags st :
  loading (restore st) = false /\ mounted (restore st) = mounted st /\
  crashed (restore st) = crashed st.
Proof.
  unfold restore, restore_try, getItem.
  destruct (storage st) as [text|]; [|done].
  destruct (bool_decide (text <> [])); [|done]. by destruct (JSON.parse text).
Qed.

(** The calls of a render after the first effect: one write at most. *)
Lemma rerender_calls st :
  loading st = false ->
  exists writes, trace (rerender st) = trace st ++ (SetItem <$> writes) /\
                 loading (rerender st) = false /\ mounted (rerender st) = mounted st.
Proof.
  intros Hl. unfold rerender, persist, crash, setItem. rewrite Hl.
  destruct (render st); cbn.
  - by eexists [_].
  - exists []. by rewrite app_nil_r.
Qed.

(** The two phases of a run: before the first effect the provider has
    asked nothing of the storage; after it, it has read the entry once,
    removed it when it did not parse, finished loading, and written ever
    since. *)
Lemma run_phases stored actions :
  let st := run (init stored) actions in
  ((Mount ∉ actions) /\ mounted st = false /\ crashed st = false /\
   loading st = true /\ trace st = [] /\ storage st = stored /\
   exists cart, cartItems st = Raw.encode cart) \/
  (Mount ∈ actions /\ mounted st = true /\ loading st = false /\
   exists writes,
     trace st =
     [GetItem] ++ (if Spec.unparseable stored then [RemoveItem] else []) ++
     [SetLoading false] ++ (SetItem <$> writes)).
Proof.
  induction actions as [|a actions IH] using rev_ind.
  { left. repeat split; [by intros ?%elem_of_nil|by exists []]. }
  unfold run in *. rewrite fold_left_app. cbn [fold_left].
  set (st := fold_left step actions (init stored)) in *. cbv zeta in IH.
  destruct IH as [(Hnot & Hm & Halive & Hl & Htr & Hst & cart & Hcart)
                 |(Hin & Hm & Hl & writes & Htr)].
  - unfold step. rewrite Halive. destruct a as [|calls].
    + right. rewrite Hm. split; [apply elem_of_app; right; by left|].
      unfold mount. cbv zeta. rewrite Hl.
      change (persist (cartItems st) true (restore st)) with (restore st).
      destruct (restore_flags st) as (Hl' & Hm' & _).
      set (st' := Build_state _ _ _ _ _ _).
      destruct (rerender_calls st') as (writes & -> & -> & ->); [done|].
      repeat split. exists writes. unfold st'; cbn [trace].
      by rewrite restore_calls, Htr, Hst, <- !app_assoc.
    + left. split.
      { intros [?|Hlast%list_elem_of_singleton]%elem_of_app; [done|discriminate]. }
      unfold dispatch. destruct (last_set _ _ _) as [v|] eqn:Hset; [|by eauto 10].
      rewrite Hcart in Hset.
      apply last_set_encode in Hset as [cart' ->]; [|done].
      rewrite (rerender_encode _ cart') by done.
      unfold persist, setCartItems; cbn. rewrite Hl. cbn. by eauto 10.
  - right. split; [apply elem_of_app; by left|].
    unfold step. destruct (crashed st); [by eauto|].
    destruct a as [|calls]; [rewrite Hm; by eauto|].
    unfold dispatch. destruct (last_set _ _ _) as [v|]; [|by eauto].
    destruct (rerender_calls (setCartItems v st)) as (more & -> & -> & ->); [done|].
    repeat split; [done|]. exists (writes ++ more). cbn [trace setCartItems].
    by rewrite Htr, fmap_app, <- !app_assoc.
Qed.

End Sessions.

(** ** Sessions: loading, reloading and entries of another shape *)

Section Reloading.
Import Js Provider CartLineItem.
Implicit Types (st : state) (cart : list CartLineItem.t) (c : call)
  (calls : list call) (a : action) (v : value).

(** X4. [loading] is false exactly in the runs in which the first effect
    has run, whatever the storage held. *)
Theorem loading_ends_with_the_first_effect stored actions :
  loading (run (init stored) actions) = false <-> Mount ∈ actions.
Proof.
  destruct (run_phases stored actions)
    as [(Hnot & _ & _ & Hl & _)|(Hin & _ & Hl & _)]; cbv zeta in *.
  - rewrite Hl. by split.
  - by rewrite Hl.
Qed.

(** X5. What a provider asks of the storage, in every run: nothing before
    the first effect; then [getItem] once, [removeItem] once when the entry
    is a string that is not empty and does not parse and never otherwise,
    [setLoading(false)] once, and from then on [setItem] only. *)
Theorem storage_calls_of_a_run stored actions :
  ((Mount ∉ actions) /\ trace (run (init stored) actions) = [] /\
   storage (run (init stored) actions) = stored) \/
  (Mount ∈ actions /\
   exists writes,
     trace (run (init stored) actions) =
     [GetItem] ++ (if Spec.unparseable stored then [RemoveItem] else []) ++
     [SetLoading false] ++ (SetItem <$> writes)).
Proof.
  destruct (run_phases stored actions)
    as [(Hnot & _ & _ & _ & Htr & Hst & _)|(Hin & _ & _ & Hwrites)]; cbv zeta in *.
  - by left.
  - by right.
Qed.

Lemma run_crashed st actions : crashed st = true -> run st actions = st.
Proof.
  intros Hc. unfold run. induction actions as [|a actions IH]; [done|].
  simpl. unfold step at 2. by rewrite Hc.
Qed.

(** X6. An entry that parses to anything but an array is made the cart;
    the render that follows throws, the tree is unmounted, and the entry
    stays in the storage as it is: the provider neither removes it nor
    writes over it, whatever is asked of it afterwards. *)
Theorem entry_of_another_shape_is_kept text v actions :
  JSON.parse text = Normal v -> (forall elems, v <> VArray elems) ->
  run (init (Some text)) (Mount :: actions) =
  {| cartItems := v; loading := false; storage := Some text; mounted := true;
     crashed := true; trace := [GetItem; SetLoading false] |}.
Proof.
  intros Hparse Hshape.
  assert (mount (init (Some text)) =
          {| cartItems := v; loading := false; storage := Some text;
             mounted := true; crashed := true;
             trace := [GetItem; SetLoading false] |}) as Hmount.
  { unfold mount. cbv zeta.
    rewrite (restore_on_success (init (Some text)) text v) by done.
    cbn [persist init negb cartItems loading storage crashed trace mounted app].
    unfold rerender, render. cbn [cartItems].
    assert (Raw.totalItems v = Throw TypeError) as ->; [|done].
    destruct v; try done. by destruct (Hshape elems). }
  change (run (init (Some text)) (Mount :: actions))
    with (run (mount (init (Some text))) actions).
  rewrite Hmount. by apply run_crashed.
Qed.

Lemma entry_of_another_shape_is_kept_witness :
  storage (run (init (Some (js "{}"))) [Mount; Event [ClearCart]; Mount]) =
    Some (js "{}") /\
  crashed (run (init (Some (js "{}"))) [Mount; Event [ClearCart]; Mount]) = true.
Proof.
  rewrite (entry_of_another_shape_is_kept (js "{}") (VObject [])
             [Event [ClearCart]; Mount]).
  - done.
  - vm_compute. reflexivity.
  - intros elems. discriminate.
Defined.

Lemma run_mirrored stored actions : Spec.mirrored (run (init stored) actions).
Proof.
  unfold run. assert (Spec.mirrored (init stored)) as Hinit by done.
  revert Hinit. generalize (init stored).
  induction actions as [|a actions IH]; intros st Hst; [done|].
  apply IH. by apply step_mirrors.
Qed.

Lemma mount_of_a_cart text cart :
  JSON.parse text = Normal (Raw.encode cart) ->
  mount (init (Some text)) =
  {| cartItems := Raw.encode cart; loading := false;
     storage := Some (default (js "undefined") (JSON.stringify (Raw.encode cart)));
     mounted := true; crashed := false;
     trace := [GetItem; SetLoading false;
               SetItem (default (js "undefined") (JSON.stringify (Raw.encode cart)))] |}.
Proof.
  intros Hparse. unfold mount. cbv zeta.
  rewrite (restore_on_success (init (Some text)) text (Raw.encode cart)) by done.
  cbn [persist init negb cartItems loading storage crashed trace mounted app].
  by rewrite (rerender_encode _ cart).
Qed.

(** X7. Reloading the page restores the cart. When a session has finished
    loading with a cart of line items whose strings are strings of code
    units and whose numbers read back from their text, its stored entry is
    the text of that cart, the text parses to the cart, and the first
    effect of a new provider over that storage makes it the cart again,
    without a throw and leaving the entry as it is. *)
Theorem reload_restores_the_cart stored actions cart :
  loading (run (init stored) actions) = false ->
  crashed (run (init stored) actions) = false ->
  cartItems (run (init stored) actions) = Raw.encode cart ->
  Forall Spec.storable cart ->
  storage (run (init stored) actions) = Some (Spec.cart_text cart) /\
  JSON.parse (Spec.cart_text cart) = Normal (Raw.encode cart) /\
  cartItems (mount (init (storage (run (init stored) actions)))) = Raw.encode cart /\
  crashed (mount (init (storage (run (init stored) actions)))) = false /\
  storage (mount (init (storage (run (init stored) actions)))) =
    Some (Spec.cart_text cart).
Proof.
  intros Hl Halive Hcart Hstorable.
  pose proof (run_mirrored stored actions Hl Halive) as Hstored.
  rewrite Hcart, stringify_encode in Hstored. cbn [default from_option id] in Hstored.
  destruct (restored_storable cart Hstorable) as [Hpersistable Hrestored].
  pose proof (parse_cart_text cart Hpersistable) as Hparse. rewrite Hrestored in Hparse.
  rewrite Hstored, (mount_of_a_cart _ cart Hparse), stringify_encode.
  by repeat split.
Qed.

Lemma reload_restores_the_cart_witness :
  let pen := {| Product._id := js "p2"; Product.title := json_text "Pen '12'";
                Product.price := 2.5; Product.imageUrl := js "pen.png";
                Product.stock := 10 |} in
  let session := run (init None) [Mount; Event [AddToCart pen (Some 3%float)]] in
  cartItems (mount (init (storage session))) = Raw.encode [Cart.newItem pen 3%float].
Proof.
  intros pen session.
  destruct (reload_restores_the_cart None
              [Mount; Event [AddToCart pen (Some 3%float)]] [Cart.newItem pen 3%float])
    as (_ & _ & Hcart & _).
  - reflexivity.
  - reflexivity.
  - vm_compute. reflexivity.
  - constructor; [|constructor].
    repeat split;
      first [apply code_units_js|apply code_units_json_text|vm_compute; reflexivity].
  - exact Hcart.
Defined.

(** X8. What the handlers set before the first effect has run is
    discarded when the storage holds an entry that parses: the first effect
    makes the parsed value the cart. When the storage holds none, or one
    that does not parse, the cart the handlers set is kept. *)
Theorem restore_overrides_earlier_calls stored before :
  Mount ∉ before ->
  (forall text v, stored = Some text -> JSON.parse text = Normal v ->
     cartItems (run (init stored) (before ++ [Mount])) = v) /\
  ((forall text v, stored = Some text -> JSON.parse text <> Normal v) ->
   cartItems (run (init stored) (before ++ [Mount])) =
     cartItems (run (init stored) before)).
Proof.
  intros Hbefore. unfold run. rewrite fold_left_app. cbn [fold_left].
  destruct (run_phases stored before)
    as [(_ & Hm & Halive & Hl & _ & Hst & _)|(Hin & _)]; [|done].
  unfold run in *. cbv zeta in *.
  set (st := fold_left step before (init stored)) in *.
  unfold step. rewrite Halive, Hm.
  destruct (mount_fields st) as [-> _]. rewrite Hl.
  change (persist (cartItems st) true (restore st)) with (restore st).
  split.
  - intros text v Hstored Hparse.
    by rewrite (restore_on_success st text v) by congruence.
  - intros Hnone.
    destruct (restore_fields st) as [_ [Hsame|(text & Htext & Hparse)]]; [done|].
    destruct (Hnone text (cartItems (restore st))); congruence.
Qed.

Lemma restore_overrides_earlier_calls_witness :
  let text := json_text
    "[{'productId':'p1','title':'A','price':5,'imageUrl':'x','stock':3,'quantity':2}]" in
  let pen := {| Product._id := js "p2"; Product.title := js "Pen";
                Product.price := 2.5; Product.imageUrl := js "pen.png";
                Product.stock := 10 |} in
  cartItems (run (init (Some text)) ([Event [AddToCart pen None]] ++ [Mount])) =
  Raw.encode [{| productId := js "p1"; title := js "A"; price := 5;
                 imageUrl := js "x"; stock := 3; quantity := 2 |}].
Proof.
  intros text pen.
  destruct (restore_overrides_earlier_calls (Some text) [Event [AddToCart pen None]])
    as [Hrestored _].
  - intros Hin. apply elem_of_cons in Hin as [Heq|Hin]; [discriminate|inversion Hin].
  - apply (Hrestored text); [reflexivity|vm_compute; reflexivity].
Defined.

End Reloading.

(** ** How the handlers compose *)

Section Composition.
Import CartLineItem.
Implicit Types (cart : list CartLineItem.t) (item : CartLineItem.t)
  (product : Product.t) (pid : jsstring).

(** [addToCart] by recursion on the cart. *)
Lemma addToCart_add_first cart product quantity :
  Cart.addToCart cart product quantity = Spec.add_first product quantity cart.
Proof.
  induction cart as [|item cart IH]; [done|]. cbn [Spec.add_first].
  destruct (Spec.has_id product item) eqn:Hid; unfold Spec.has_id in Hid.
  - apply bool_decide_eq_true in Hid.
    rewrite (addToCart_found _ _ _ 0 item); [done..|]. intros m item' Hm. lia.
  - apply bool_decide_eq_false in Hid. rewrite <- IH.
    destruct (addToCart_cases cart product quantity)
      as [[Hnone ->]|(n & item' & Hn & Hid' & Hbefore & ->)].
    + rewrite addToCart_new; [done|].
      intros item' [->|Hin]%elem_of_cons; auto.
    + rewrite (addToCart_found _ _ _ (S n) item'); [done..|].
      intros [|m] item'' Hm Hitem; simpl in Hitem; [by injection Hitem as <-|].
      apply (Hbefore m); [lia|done].
Qed.

Lemma productId_bump quantity item :
  productId (Spec.bump_quantity quantity item) = productId item.
Proof. done. Qed.

(** X9. Removing a product right after adding it undoes the addition, and
    more: the cart is the one that removing the product from the cart
    before the addition gives, so that a product that was not in the cart
    leaves the cart as it was. *)
Theorem removeFromCart_undoes_addToCart cart product quantity :
  Cart.removeFromCart (Cart.addToCart cart product quantity) (Product._id product) =
    Cart.removeFromCart cart (Product._id product) /\
  ((forall item, item ∈ cart -> productId item <> Product._id product) ->
   Cart.removeFromCart (Cart.addToCart cart product quantity) (Product._id product) =
     cart).
Proof.
  assert (Cart.removeFromCart (Cart.addToCart cart product quantity)
            (Product._id product) =
          Cart.removeFromCart cart (Product._id product)) as Hundo.
  { rewrite addToCart_add_first. unfold Cart.removeFromCart.
    induction cart as [|item cart IH]; cbn [Spec.add_first].
    - by rewrite filter_cons, decide_False by (intros Hne; by apply Hne).
    - destruct (Spec.has_id product item) eqn:Hid; unfold Spec.has_id in Hid.
      + apply bool_decide_eq_true in Hid.
        by rewrite !filter_cons, !decide_False by (intros Hne; by apply Hne).
      + by rewrite !filter_cons, IH. }
  split; [done|]. intros Hnone. rewrite Hundo. by apply removeFromCart_id.
Qed.

(** X10. For one product id the last update is the one that counts: a
    second [updateQuantity] overrides the first, a removal after an update
    is the removal alone, and removing twice is removing once. *)
Theorem updateQuantity_last_wins cart pid first second :
  Cart.updateQuantity (Cart.updateQuantity cart pid first) pid second =
    Cart.updateQuantity cart pid second /\
  Cart.removeFromCart (Cart.updateQuantity cart pid first) pid =
    Cart.removeFromCart cart pid /\
  Cart.removeFromCart (Cart.removeFromCart cart pid) pid =
    Cart.removeFromCart cart pid.
Proof.
  unfold Cart.updateQuantity, Cart.removeFromCart. repeat split.
  - induction cart as [|item cart IH]; [done|]. cbn [List.map]. rewrite IH.
    f_equal. by repeat (case_bool_decide; cbn [productId Cart.with_quantity] in * ).
  - induction cart as [|item cart IH]; [done|]. cbn [List.map].
    rewrite !filter_cons, IH.
    case_bool_decide; [|done].
    by rewrite !decide_False by (intros Hne; by apply Hne).
  - induction cart as [|item cart IH]; [done|]. rewrite filter_cons.
    destruct (decide _); [|done]. by rewrite filter_cons, decide_True, IH.
Qed.

(** X11. Updates and removals commute: two removals always, a removal
    and an update always, two updates when they are for different product
    ids. *)
Theorem updates_and_removals_commute cart pid pid' q q' :
  Cart.removeFromCart (Cart.removeFromCart cart pid) pid' =
    Cart.removeFromCart (Cart.removeFromCart cart pid') pid /\
  Cart.removeFromCart (Cart.updateQuantity cart pid q) pid' =
    Cart.updateQuantity (Cart.removeFromCart cart pid') pid q /\
  (pid <> pid' ->
   Cart.updateQuantity (Cart.updateQuantity cart pid q) pid' q' =
     Cart.updateQuantity (Cart.updateQuantity cart pid' q') pid q).
Proof.
  unfold Cart.updateQuantity, Cart.removeFromCart. repeat split.
  - induction cart as [|item cart IH]; [done|].
    rewrite !filter_cons.
    destruct (decide (productId item <> pid)), (decide (productId item <> pid'));
      rewrite ?filter_cons, ?decide_True, ?decide_False by done; by rewrite ?IH.
  - induction cart as [|item cart IH]; [done|]. cbn [List.map].
    rewrite !filter_cons, IH.
    case_bool_decide; cbn [productId Cart.with_quantity];
      destruct (decide (productId item <> pid')); cbn [List.map];
      rewrite ?bool_decide_eq_true_2, ?bool_decide_eq_false_2 by done; done.
  - intros Hne. induction cart as [|item cart IH]; [done|]. cbn [List.map].
    rewrite IH. f_equal.
    repeat (case_bool_decide; cbn [productId Cart.with_quantity] in * ); congruence.
Qed.

(** X12. Adding a product commutes with updating and with removing
    another product. *)
Theorem addToCart_commutes_with_other_products cart product quantity pid q :
  Product._id product <> pid ->
  Cart.addToCart (Cart.updateQuantity cart pid q) product quantity =
    Cart.updateQuantity (Cart.addToCart cart product quantity) pid q /\
  Cart.addToCart (Cart.removeFromCart cart pid) product quantity =
    Cart.removeFromCart (Cart.addToCart cart product quantity) pid.
Proof.
  intros Hne. rewrite !addToCart_add_first.
  unfold Cart.updateQuantity, Cart.removeFromCart. split.
  - induction cart as [|item cart IH]; cbn [Spec.add_first List.map].
    + by rewrite bool_decide_eq_false_2.
    + unfold Spec.has_id.
      destruct (decide (productId item = Product._id product)) as [Hid|Hid].
      * rewrite (bool_decide_eq_false_2 (productId item = pid)) by congruence.
        rewrite bool_decide_eq_true_2 by done. cbn [List.map].
        by rewrite bool_decide_eq_false_2 by (rewrite productId_bump; congruence).
      * rewrite (bool_decide_eq_false_2 (productId item = Product._id product)) by done.
        cbn [List.map]. rewrite <- IH.
        destruct (bool_decide (productId item = pid));
          cbn [productId Cart.with_quantity]; by rewrite bool_decide_eq_false_2.
  - induction cart as [|item cart IH]; cbn [Spec.add_first].
    + by rewrite filter_nil, filter_cons, decide_True.
    + rewrite filter_cons. unfold Spec.has_id.
      destruct (decide (productId item = Product._id product)) as [Hid|Hid].
      * rewrite decide_True, bool_decide_eq_true_2 by congruence.
        cbn [Spec.add_first]. unfold Spec.has_id.
        rewrite bool_decide_eq_true_2, filter_cons, decide_True;
          [done|rewrite productId_bump; congruence|done].
      * rewrite (bool_decide_eq_false_2 (productId item = Product._id product)) by done.
        rewrite filter_cons, <- IH.
        destruct (decide (productId item <> pid)); [|done].
        cbn [Spec.add_first]. unfold Spec.has_id. by rewrite bool_decide_eq_false_2.
Qed.

Lemma addToCart_commutes_with_other_products_witness :
  let ink := {| productId := js "p1"; title := js "Ink"; price := 9.5;
                imageUrl := js "ink.png"; stock := 4; quantity := 1 |} in
  let pen := {| Product._id := js "p2"; Product.title := js "Pen";
                Product.price := 2.5; Product.imageUrl := js "pen.png";
                Product.stock := 10 |} in
  Cart.addToCart (Cart.removeFromCart [ink] (js "p1")) pen None =
  Cart.removeFromCart (Cart.addToCart [ink] pen None) (js "p1").
Proof.
  intros ink pen.
  destruct (addToCart_commutes_with_other_products [ink] pen None (js "p1") 0%float)
    as [_ Hremove]; [discriminate|exact Hremove].
Defined.

(** X13. Adding a product that is not in the cart raises [totalItems] by
    the quantity passed and the number behind [totalPrice] by the price
    times the quantity, in host arithmetic. *)
Theorem addToCart_new_product_raises_totals cart product quantity :
  (forall item, item ∈ cart -> productId item <> Product._id product) ->
  Cart.totalItems (Cart.addToCart cart product quantity) =
    (Cart.totalItems cart + default 1 quantity)%float /\
  Cart.totalPrice_number (Cart.addToCart cart product quantity) =
    (Cart.totalPrice_number cart + Product.price product * default 1 quantity)%float.
Proof.
  intros Hnone. rewrite addToCart_new by done.
  unfold Cart.totalItems, Cart.totalPrice_number. by rewrite !fold_left_app.
Qed.

Lemma addToCart_new_product_raises_totals_witness :
  let pen := {| Product._id := js "p2"; Product.title := js "Pen";
                Product.price := 2.5; Product.imageUrl := js "pen.png";
                Product.stock := 10 |} in
  Cart.totalItems (Cart.addToCart [] pen (Some 4%float)) = 4%float /\
  Cart.totalPrice (Cart.addToCart [] pen (Some 4%float)) = js "10.00".
Proof.
  intros pen.
  destruct (addToCart_new_product_raises_totals [] pen (Some 4%float)) as [Hitems Hprice].
  - intros item Hin. inversion Hin.
  - split; [rewrite Hitems; vm_compute; reflexivity|].
    unfold Cart.totalPrice. rewrite Hprice. vm_compute. reflexivity.
Defined.

End Composition.

(** ** Restored arrays that are not carts *)

Section RestoredArrays.
Import Js Provider.
Implicit Types (st : state) (v item : value) (elems : list value)
  (props : list (jsstring * value)) (key : jsstring).

Lemma lookup_replace key key' v props props' :
  replace_prop key' v props = Some props' ->
  lookup_prop key props' =
  if bool_decide (key = key') then v else lookup_prop key props.
Proof.
  revert props'. induction props as [|[k w] props IH]; intros props'; [done|].
  cbn [replace_prop]. destruct (decide (k = key')) as [->|Hk].
  - rewrite (bool_decide_eq_true_2 (key' = key')) by done.
    intros [= <-]. cbn [lookup_prop]. repeat case_bool_decide; congruence.
  - rewrite (bool_decide_eq_false_2 (k = key')) by done.
    destruct (replace_prop key' v props) as [rest|]; [|done].
    intros [= <-]. cbn [lookup_prop]. rewrite (IH rest) by done.
    repeat case_bool_decide; congruence.
Qed.

Lemma replace_none key' v props :
  replace_prop key' v props = None -> Forall (fun kv => kv.1 <> key') props.
Proof.
  induction props as [|[k w] props IH]; [done|]. cbn [replace_prop].
  case_bool_decide; [done|]. destruct (replace_prop key' v props); [done|].
  intros _. constructor; auto.
Qed.

Lemma lookup_new key key' v props new :
  Forall (fun kv => kv.1 <> key') props ->
  new = props ++ [(key', v)] \/ (exists i, new = insert_index i key' v props) ->
  lookup_prop key new =
  if bool_decide (key = key') then v else lookup_prop key props.
Proof.
  intros Hfresh Hnew. revert new Hnew.
  induction Hfresh as [|[k w] props Hk _ IH]; intros new.
  - intros [-> |[i ->]]; cbn [app insert_index lookup_prop];
      repeat case_bool_decide; congruence.
  - cbn [fst] in Hk. intros [-> |[i ->]]; cbn [app insert_index lookup_prop].
    + rewrite (IH (props ++ [(key', v)])) by auto.
      repeat case_bool_decide; congruence.
    + destruct (array_index k) as [j|]; [destruct (j <? i)|]; cbn [lookup_prop];
        rewrite ?(IH (insert_index i key' v props)) by eauto;
        repeat case_bool_decide; congruence.
Qed.

(** Reading a property after [CreateDataProperty]. *)
Lemma lookup_define key key' v props :
  lookup_prop key (define_prop key' v props) =
  if bool_decide (key = key') then v else lookup_prop key props.
Proof.
  unfold define_prop. destruct (replace_prop key' v props) as [props'|] eqn:Hreplace.
  - by apply lookup_replace.
  - apply replace_none in Hreplace. apply lookup_new; [done|].
    destruct (array_index key'); eauto.
Qed.

(** The copy [{ ...item, quantity: q }] of an object reads [q] for
    [quantity] and, for every other property, what the object read. *)
Lemma Get_with_quantity props q key :
  Get (Raw.with_quantity (VObject props) q) key =
  if bool_decide (key = js "quantity") then Normal q else Get (VObject props) key.
Proof.
  unfold Raw.with_quantity. cbn [Get spread]. rewrite lookup_define.
  by case_bool_decide.
Qed.

Lemma map_from_related (P : value -> Prop) (R : value -> value -> Prop)
    (f : value -> Z -> completion value) elems i :
  (forall x j, P x -> exists y, f x j = Normal y /\ R x y) ->
  Forall P elems ->
  exists elems', Raw.map_from f i elems = Normal elems' /\ Forall2 R elems elems'.
Proof.
  intros Hf Helems. revert i.
  induction Helems as [|item elems Hitem _ IH]; intros i; [by exists []|].
  cbn [Raw.map_from]. destruct (Hf item i Hitem) as (y & -> & Hy).
  destruct (IH (i + 1)) as (ys & -> & Hys). exists (y :: ys). split; [done|].
  by constructor.
Qed.

Lemma map_from_array (P : value -> Prop) (R : value -> value -> Prop)
    (f : value -> Z -> completion value) elems :
  (forall x j, P x -> exists y, f x j = Normal y /\ R x y) ->
  Forall P elems ->
  exists elems',
    (ys ← Raw.map_from f 0 elems; Normal (VArray ys)) = Normal (VArray elems') /\
    Forall2 R elems elems'.
Proof.
  intros Hf Helems.
  destruct (map_from_related P R f elems 0 Hf Helems) as (elems' & -> & Hrelated).
  by exists elems'.
Qed.

(** X14. [updateQuantity] on an array of objects of any shape, as the
    first effect may have restored it: it does not throw; a line item
    whose [productId] is the given string reads the new quantity for
    [quantity] and, for every other property, known to the script or not,
    what it read before; every other line item is the same. *)
Theorem updateQuantity_keeps_the_other_properties elems pid newQuantity :
  Forall (fun item => exists props, item = VObject props) elems ->
  exists elems',
    Raw.updateQuantity (VArray elems) pid newQuantity = Normal (VArray elems') /\
    Forall2
      (fun item item' =>
         (Get item (js "productId") = Normal (VString pid) ->
          forall key,
            Get item' key =
            if bool_decide (key = js "quantity") then Normal (VNumber newQuantity)
            else Get item key) /\
         (Get item (js "productId") <> Normal (VString pid) -> item' = item))
      elems elems'.
Proof.
  intros Helems. unfold Raw.updateQuantity.
  cbn [Raw.elements_of mbind completion_bind].
  apply (map_from_array (fun item => exists props, item = VObject props)); [|done].
  intros item _ [props ->]. cbn [Get mbind completion_bind].
  destruct (lookup_prop (js "productId") props) as [| | | |s| |] eqn:Hid;
    cbn [strict_eq_string]; try (eexists; split; [done|]; by split).
  case_bool_decide as Hs; eexists; (split; [done|]); split; try done.
  - intros _ key. apply Get_with_quantity.
  - subst s. by intros [].
  - by intros [= ->].
Qed.

Lemma updateQuantity_keeps_the_other_properties_witness :
  let item := VObject [(js "productId", VString (js "p1")); (js "sku", VString (js "A-7"));
                       (js "quantity", VString (js "2"))] in
  exists item',
    Raw.updateQuantity (VArray [item]) (js "p1") 5%float = Normal (VArray [item']) /\
    Get item' (js "sku") = Normal (VString (js "A-7")) /\
    Get item' (js "quantity") = Normal (VNumber 5).
Proof.
  intros item.
  destruct (updateQuantity_keeps_the_other_properties [item] (js "p1") 5%float)
    as (elems' & Hupdate & Hrelated).
  - constructor; [by eexists|constructor].
  - destruct elems' as [|item' [|? ?]];
      [by apply Forall2_length in Hrelated| |by apply Forall2_length in Hrelated].
    apply Forall2_cons_1 in Hrelated as [[Hsame _] _].
    exists item'. split; [exact Hupdate|].
    split; [exact (Hsame eq_refl (js "sku"))|exact (Hsame eq_refl (js "quantity"))].
Defined.

Lemma add_scalar a b :
  Spec.scalar a -> Spec.scalar b -> exists r, add a b = Normal r /\ Spec.scalar r.
Proof. destruct a, b; try done; intros _ _; eexists; by split. Qed.

Lemma mul_scalar a b :
  Spec.scalar a -> Spec.scalar b -> exists x, mul a b = Normal (VNumber x).
Proof. destruct a, b; try done; intros _ _; by eexists. Qed.



Lemma encode_countable cart : Forall Spec.countable (List.map Raw.encode_item cart).
Proof. induction cart; by constructor. Qed.


(** The totals of an array of such objects: neither throws. *)
Lemma totals_countable elems :
  Forall Spec.countable elems ->
  (exists v, Raw.totalItems (VArray elems) = Normal v /\ Spec.scalar v) /\
  (exists x, Raw.totalPrice_number (VArray elems) = Normal (VNumber x)).
Proof.
  intros Helems. unfold Raw.totalItems, Raw.totalPrice_number.
  cbn [Raw.elements_of mbind completion_bind]. split.
  - assert (Spec.scalar (VNumber 0)) as Hacc by done. revert Hacc.
    generalize (VNumber 0).
    induction Helems as [|item elems Hitem _ IH]; intros acc Hacc; [by exists acc|].
    cbn [Raw.reduce]. destruct item as [| | | | | |props]; try done.
    destruct Hitem as [_ Hq]. cbn [Get mbind completion_bind].
    destruct (add_scalar acc _ Hacc Hq) as (r & -> & Hr). by apply IH.
  - generalize 0%float.
    induction Helems as [|item elems Hitem _ IH]; intros acc; [by exists acc|].
    cbn [Raw.reduce]. destruct item as [| | | | | |props]; try done.
    destruct Hitem as [Hp Hq]. cbn [Get mbind completion_bind].
    destruct (mul_scalar _ _ Hp Hq) as (m & ->). cbn [mbind completion_bind].
    apply IH.
Qed.

Lemma render_countable st elems :
  cartItems st = VArray elems -> Forall Spec.countable elems ->
  exists ctx, render st = Normal ctx.
Proof.
  intros Hcart Helems. unfold render, Raw.totalPrice. rewrite Hcart.
  destruct (totals_countable elems Helems) as [(v & -> & _) (x & ->)].
  by eexists.
Qed.






Lemma rerender_rendered st ctx :
  render st = Normal ctx -> crashed (rerender st) = crashed st.
Proof.
  intros Hrender. unfold rerender, persist, setItem. rewrite Hrender.
  by destruct (negb _).
Qed.


(** A cart whose quantities are strings has them written one after the
    other. *)
Lemma reduce_strings elems strs t :
  Forall2 (fun item s => Get item (js "quantity") = Normal (VString s)) elems strs ->
  Raw.reduce (fun acc item => q ← Get item (js "quantity"); add acc q)
    elems (VString t) = Normal (VString (t ++ concat strs)).
Proof.
  intros Hstrs. revert t.
  induction Hstrs as [|item s elems strs Hs _ IH]; intros t; cbn [Raw.reduce concat].
  - by rewrite app_nil_r.
  - rewrite Hs. cbn. by rewrite IH, app_assoc.
Qed.

Lemma add_zero_string s :
  add (VNumber 0) (VString s) = Normal (VString (js "0" ++ s)).
Proof.
  unfold add. cbn [ToPrimitive mbind completion_bind ToString].
  assert (Number.toString 0 = js "0") as -> by (vm_compute; reflexivity). done.
Qed.

(** X15. [totalItems] adds numbers and joins strings: when the quantities
    of a restored cart are strings, [totalItems] is the text [0] followed
    by those strings in order, not their sum. *)
Theorem totalItems_joins_string_quantities item elems s strs :
  Get item (js "quantity") = Normal (VString s) ->
  Forall2 (fun item s => Get item (js "quantity") = Normal (VString s)) elems strs ->
  Raw.totalItems (VArray (item :: elems)) =
  Normal (VString (js "0" ++ s ++ concat strs)).
Proof.
  intros Hs Hstrs. unfold Raw.totalItems.
  change ((acc ← (q ← Get item (js "quantity"); add (VNumber 0) q);
           Raw.reduce (fun acc item => q ← Get item (js "quantity"); add acc q)
             elems acc) =
          Normal (VString (js "0" ++ s ++ concat strs))).
  rewrite Hs.
  change ((acc ← add (VNumber 0) (VString s);
           Raw.reduce (fun acc item => q ← Get item (js "quantity"); add acc q)
             elems acc) =
          Normal (VString (js "0" ++ s ++ concat strs))).
  rewrite add_zero_string.
  change (Raw.reduce (fun acc item => q ← Get item (js "quantity"); add acc q)
            elems (VString (js "0" ++ s)) =
          Normal (VString (js "0" ++ s ++ concat strs))).
  by rewrite (reduce_strings elems strs), <- app_assoc.
Qed.

Lemma totalItems_joins_string_quantities_witness :
  let item := VObject [(js "productId", VString (js "p1"));
                       (js "quantity", VString (js "2"))] in
  let other := VObject [(js "productId", VString (js "p2"));
                        (js "quantity", VString (js "10"))] in
  Raw.totalItems (VArray [item; other]) = Normal (VString (js "0210")).
Proof.
  intros item other.
  rewrite (totalItems_joins_string_quantities item [other] (js "2") [js "10"]).
  - reflexivity.
  - reflexivity.
  - by repeat constructor.
Defined.



End RestoredArrays.

(** ** Numbers that are not stored *)

Section NumbersNotStored.
Import Js Provider CartLineItem.
Implicit Types (st : state) (cart : list CartLineItem.t).

Lemma restored_countable cart : Forall Spec.countable (Spec.restored_item <$> cart).
Proof.
  induction cart as [|item cart IH]; constructor; [|done].
  unfold Spec.restored_item, Spec.countable, Spec.restored_number.
  cbn [lookup_prop]. cbn.
  by destruct (Spec.finite (price item)), (Spec.finite (quantity item)).
Qed.

Lemma mount_of_an_array text elems :
  JSON.parse text = Normal (VArray elems) -> Forall Spec.countable elems ->
  cartItems (mount (init (Some text))) = VArray elems /\
  crashed (mount (init (Some text))) = false.
Proof.
  intros Hparse Helems. unfold mount. cbv zeta.
  rewrite (restore_on_success (init (Some text)) text (VArray elems)) by done.
  cbn [persist init negb cartItems loading storage crashed trace mounted app].
  set (st := Build_state _ _ _ _ _ _).
  destruct (render_countable st elems) as [ctx Hctx]; [done..|].
  rewrite (rerender_rendered st ctx Hctx).
  by destruct (rerender_fields st) as (-> & _).
Qed.

(** X17. A number that is not finite does not survive a reload. When a
    session has finished loading with a cart of line items whose strings
    are strings of code units and whose finite numbers read back from their
    text, the first effect of a new provider over its storage restores the
    line items with [null] in the place of every price, stock or quantity
    that was [NaN] or an infinity, and the render that follows does not
    throw. *)
Theorem reload_turns_other_numbers_into_null stored actions cart :
  loading (run (init stored) actions) = false ->
  crashed (run (init stored) actions) = false ->
  cartItems (run (init stored) actions) = Raw.encode cart ->
  Forall Spec.persistable cart ->
  cartItems (mount (init (storage (run (init stored) actions)))) =
    VArray (Spec.restored_item <$> cart) /\
  crashed (mount (init (storage (run (init stored) actions)))) = false /\
  (forall item, Spec.finite (quantity item) = false ->
     Get (Spec.restored_item item) (js "quantity") = Normal VNull).
Proof.
  intros Hl Halive Hcart Hpersistable.
  pose proof (run_mirrored stored actions Hl Halive) as Hstored.
  rewrite Hcart, stringify_encode in Hstored. cbn [default from_option id] in Hstored.
  rewrite Hstored.
  destruct (mount_of_an_array (Spec.cart_text cart) (Spec.restored_item <$> cart))
    as [-> ->]; [by apply parse_cart_text|apply restored_countable|].
  repeat split. intros item Hq.
  unfold Spec.restored_item, Spec.restored_number. by rewrite Hq.
Qed.

Lemma reload_turns_other_numbers_into_null_witness :
  let pen := {| Product._id := js "p2"; Product.title := js "Pen";
                Product.price := 2.5; Product.imageUrl := js "pen.png";
                Product.stock := 10 |} in
  let session := run (init None) [Mount; Event [AddToCart pen None];
                                  Event [UpdateQuantity (js "p2") nan]] in
  cartItems (mount (init (storage session))) =
  VArray [Raw.with_quantity (Raw.newItem pen 1) VNull].
Proof.
  intros pen session.
  destruct (reload_turns_other_numbers_into_null None
              [Mount; Event [AddToCart pen None]; Event [UpdateQuantity (js "p2") nan]]
              [Cart.with_quantity (Cart.newItem pen 1) nan])
    as (Hcart & _ & _).
  - reflexivity.
  - reflexivity.
  - vm_compute. reflexivity.
  - constructor; [|constructor].
    repeat split;
      first [apply code_units_js
            |intros _; vm_compute; reflexivity
            |intros Hfinite; vm_compute in Hfinite; discriminate].
  - exact Hcart.
Defined.

(** [NaN], the infinities and negative zero do not read back from their
    text. *)
Example numbers_that_do_not_read_back :
  ~ Spec.reads_back nan /\ ~ Spec.reads_back infinity /\
  ~ Spec.reads_back neg_infinity /\ ~ Spec.reads_back (-0)%float /\
  JSON.number (Number.toString (-0)%float) = Some (0%float, []).
Proof.
  unfold Spec.reads_back.
  repeat split; intros H; vm_compute in H; discriminate.
Qed.

End NumbersNotStored.

(** ** Sequences of additions, in order and through the provider *)

Section Additions.
Import Js Provider CartLineItem.
Implicit Types (cart : list CartLineItem.t) (product : Product.t)
  (calls : list (Product.t * option float)).

Lemma productIds_add_first product quantity cart :
  productId <$> Spec.add_first product quantity cart =
  if decide (Product._id product ∈ productId <$> cart)
  then productId <$> cart
  else (productId <$> cart) ++ [Product._id product].
Proof.
  induction cart as [|item cart IH]; cbn [Spec.add_first].
  - rewrite decide_False; [done|]. by intros ?%elem_of_nil.
  - unfold Spec.has_id. case_bool_decide as Hid.
    + rewrite decide_True; [done|]. rewrite fmap_cons, Hid. by left.
    + rewrite !fmap_cons, IH.
      destruct (decide (Product._id product ∈ productId <$> cart)) as [Hin|Hout].
      * rewrite decide_True; [done|]. by right.
      * rewrite decide_False; [done|].
        intros [?|?]%elem_of_cons; [congruence|done].
Qed.

Lemma first_occurrences_snoc (x : jsstring) (l : list jsstring) :
  reverse (remove_dups (reverse (l ++ [x]))) =
  if decide (x ∈ l) then reverse (remove_dups (reverse l))
  else reverse (remove_dups (reverse l)) ++ [x].
Proof.
  rewrite reverse_snoc. cbn [remove_dups]. unfold decide_rel.
  destruct (list_elem_of_dec x (reverse l)) as [Hin|Hout].
  - rewrite decide_True; [done|]. by apply elem_of_reverse.
  - rewrite decide_False, reverse_cons; [done|].
    intros Hin. apply Hout. by apply elem_of_reverse.
Qed.

(** X18. The line items of a cart stand in the order in which their
    products were first added: after any sequence of [addToCart] calls on
    the empty cart, the product ids of the cart are the ids passed, each
    kept at its first occurrence. *)
Theorem cart_order_is_the_order_of_first_additions calls :
  productId <$> Spec.cart_after calls =
  reverse (remove_dups (reverse ((fun call => Product._id call.1) <$> calls))).
Proof.
  induction calls as [|[product quantity] calls IH] using rev_ind; [done|].
  rewrite cart_after_snoc, addToCart_add_first, productIds_add_first, IH.
  rewrite fmap_app. cbn [fmap list_fmap fst]. rewrite first_occurrences_snoc.
  set (ids := (fun call => Product._id call.1) <$> calls).
  destruct (decide (Product._id product ∈ reverse (remove_dups (reverse ids))))
    as [Hin|Hout].
  - rewrite decide_True; [done|].
    by rewrite elem_of_reverse, elem_of_remove_dups, elem_of_reverse in Hin.
  - rewrite decide_False; [done|]. intros Hin. apply Hout.
    by rewrite elem_of_reverse, elem_of_remove_dups, elem_of_reverse.
Qed.

Lemma run_snoc st actions a : run st (actions ++ [a]) = step (run st actions) a.
Proof. unfold run. by rewrite fold_left_app. Qed.

(** X19. Calls made one per event, each from the render that follows the
    one before, add up in the provider as they do on carts: over an empty
    storage, after the first effect and one event per [addToCart] call,
    no render has thrown, the cart is the cart of the sequence of calls and
    the stored entry is its text. *)
Theorem one_call_per_event_accumulates calls :
  let st := run (init None)
              (Mount :: ((fun call => Event [AddToCart call.1 call.2]) <$> calls)) in
  crashed st = false /\ loading st = false /\
  cartItems st = Raw.encode (Spec.cart_after calls) /\
  storage st = Some (Spec.cart_text (Spec.cart_after calls)).
Proof.
  induction calls as [|[product quantity] calls IH] using rev_ind; [done|].
  cbv zeta in *. rewrite fmap_app, app_comm_cons.
  cbn [fmap list_fmap fst snd]. rewrite run_snoc.
  destruct IH as (Halive & Hl & Hcart & _).
  set (st := run (init None) _) in *. clearbody st.
  unfold step. rewrite Halive. unfold dispatch. cbn [last_set invoke].
  rewrite Hcart, addToCart_encode, <- cart_after_snoc.
  rewrite (rerender_encode _ (Spec.cart_after (calls ++ [(product, quantity)])))
    by done.
  unfold persist, setItem, setCartItems.
  cbn [cartItems loading storage crashed]. rewrite Hl.
  cbn [negb cartItems loading storage crashed].
  by rewrite Halive, stringify_encode.
Qed.

End Additions.

(** ** Calls made one per render *)

Section OneCallPerRender.
Import Js Provider CartLineItem.
Implicit Types (st : state) (cart : list CartLineItem.t) (c : call)
  (product : Product.t) (calls : list (Product.t * option float)).

(** An event of one call on a cart of line items: the render that follows
    sees what the call computed, and does not throw. *)
Lemma event_of_one_call st cart c cart' :
  crashed st = false -> cartItems st = Raw.encode cart ->
  invoke (Raw.encode cart) c = Normal (Raw.encode cart') ->
  cartItems (step st (Event [c])) = Raw.encode cart' /\
  crashed (step st (Event [c])) = false.
Proof.
  intros Halive Hcart Hc. unfold step, dispatch. rewrite Halive.
  cbn [last_set]. rewrite Hcart, Hc.
  rewrite (rerender_encode _ cart') by done.
  unfold persist, setItem, setCartItems. cbn [cartItems loading].
  by destruct (negb _).
Qed.

Lemma events_of_addToCart st cart calls :
  crashed st = false -> cartItems st = Raw.encode cart ->
  cartItems (run st ((fun call => Event [AddToCart call.1 call.2]) <$> calls)) =
    Raw.encode (fold_left (fun cart call => Cart.addToCart cart call.1 call.2)
                  calls cart) /\
  crashed (run st ((fun call => Event [AddToCart call.1 call.2]) <$> calls)) = false.
Proof.
  revert st cart. induction calls as [|[product quantity] calls IH];
    intros st cart Halive Hcart; [done|].
  cbn [fmap list_fmap fold_left fst snd].
  change (run st (?a :: ?l)) with (run (step st a) l).
  destruct (event_of_one_call st cart (AddToCart product quantity)
              (Cart.addToCart cart product quantity) Halive Hcart)
    as [Hcart' Halive']; [apply addToCart_encode|].
  by apply IH.
Qed.

(** C1 (as the code has it). When the [addToCart] calls are made one per
    event, each from the render that follows the call before, on a provider
    whose cart is empty: no render throws, and the cart holds at most one
    line item per product id; the quantity of a line item is the sum, taken
    left to right in host arithmetic, of the quantities the calls passed
    for its product id, an omitted quantity counting as 1; and every
    product passed has its line item. *)
Theorem addToCart_accumulates_per_productId st calls :
  crashed st = false -> cartItems st = VArray [] ->
  exists cart,
    cartItems (run st ((fun call => Event [AddToCart call.1 call.2]) <$> calls)) =
      Raw.encode cart /\
    crashed (run st ((fun call => Event [AddToCart call.1 call.2]) <$> calls)) =
      false /\
    NoDup (productId <$> cart) /\
    (forall item, item ∈ cart ->
       exists q qs, Spec.quantities_passed (productId item) calls = q :: qs /\
                    quantity item = Spec.sum_from q qs) /\
    (forall product quantity, (product, quantity) ∈ calls ->
       exists item, item ∈ cart /\ productId item = Product._id product).
Proof.
  intros Halive Hcart. exists (Spec.cart_after calls).
  destruct (events_of_addToCart st [] calls Halive Hcart) as [Hcart' Halive'].
  destruct (cart_after_accumulates calls) as (Hnd & Hsum & Hin).
  by repeat split.
Qed.

(** Ink, two pens, and ink again three times over, in three events. *)
Lemma addToCart_accumulates_per_productId_witness :
  let ink := {| Product._id := js "p1"; Product.title := js "Ink";
                Product.price := 9.5; Product.imageUrl := js "ink.png";
                Product.stock := 4 |} in
  let pen := {| Product._id := js "p2"; Product.title := js "Pen";
                Product.price := 2.5; Product.imageUrl := js "pen.png";
                Product.stock := 10 |} in
  let events := [Event [AddToCart ink None]; Event [AddToCart pen (Some 2%float)];
                 Event [AddToCart ink (Some 3%float)]] in
  (exists cart, cartItems (run (mount (init None)) events) = Raw.encode cart /\
                NoDup (productId <$> cart)) /\
  cartItems (run (mount (init None)) events) =
    Raw.encode [Cart.newItem ink 4%float; Cart.newItem pen 2%float].
Proof.
  intros ink pen events. split; [|vm_compute; reflexivity].
  destruct (addToCart_accumulates_per_productId (mount (init None))
              [(ink, None); (pen, Some 2%float); (ink, Some 3%float)])
    as (cart & Hcart & _ & Hnd & _).
  - reflexivity.
  - reflexivity.
  - by exists cart.
Defined.

(** C1 fails as stated: two calls made in one event both work on the cart
    of the same render, and the quantity of the line item is 1 where the
    quantities passed add up to 2. *)
Lemma addToCart_twice_in_one_event_counterexample :
  let pen := {| Product._id := js "p2"; Product.title := js "Pen";
                Product.price := 2.5; Product.imageUrl := js "pen.png";
                Product.stock := 10 |} in
  cartItems (step (mount (init None))
               (Event [AddToCart pen (Some 1%float); AddToCart pen (Some 1%float)])) =
    Raw.encode [Cart.newItem pen 1%float] /\
  Spec.quantities_passed (js "p2") [(pen, Some 1%float); (pen, Some 1%float)] =
    [1%float; 1%float] /\
  Spec.sum_from 1%float [1%float] = 2%float /\
  1%float <> 2%float.
Proof.
  intros pen. split; [vm_compute; reflexivity|].
  split; [vm_compute; reflexivity|]. split; [vm_compute; reflexivity|].
  intros Heq. assert (Prim2SF 1 = Prim2SF 2) as Hsf by by rewrite Heq.
  vm_compute in Hsf. discriminate.
Qed.

(** C8 (as the code has it). When a product's line item is removed in one
    event and the product is added in the next, from the render that
    follows: no render throws; the cart is the line items the removal
    left, followed by one new line item for the product; that line item is
    the only one with the product's id; its quantity is exactly the
    quantity passed, 1 when none was, and its other fields are the
    product's; and it is the line item that adding the product to any cart
    without the product yields. *)
Theorem removeFromCart_then_addToCart_is_fresh st cart fresh product quantity :
  crashed st = false -> cartItems st = Raw.encode cart ->
  (forall item, item ∈ fresh -> productId item <> Product._id product) ->
  exists added,
    cartItems (run st [Event [RemoveFromCart (Product._id product)];
                       Event [AddToCart product quantity]]) =
      Raw.encode (Cart.removeFromCart cart (Product._id product) ++ [added]) /\
    crashed (run st [Event [RemoveFromCart (Product._id product)];
                     Event [AddToCart product quantity]]) = false /\
    Spec.items_for (Product._id product)
      (Cart.removeFromCart cart (Product._id product) ++ [added]) = [added] /\
    Spec.items_for (Product._id product) (Cart.addToCart fresh product quantity) =
      [added] /\
    CartLineItem.quantity added = default 1%float quantity /\
    productId added = Product._id product /\
    title added = Product.title product /\
    price added = Product.price product /\
    imageUrl added = Product.imageUrl product /\
    stock added = Product.stock product.
Proof.
  intros Halive Hcart Hfresh.
  exists (Cart.newItem product (default 1%float quantity)).
  change (run st [?a; ?b]) with (step (step st a) b).
  destruct (event_of_one_call st cart (RemoveFromCart (Product._id product))
              (Cart.removeFromCart cart (Product._id product)) Halive Hcart)
    as [Hcart1 Halive1]; [apply removeFromCart_encode|].
  destruct (addToCart_after_removeFromCart cart product quantity) as [Hadd Hitems].
  destruct (event_of_one_call _ _ (AddToCart product quantity)
              (Cart.addToCart (Cart.removeFromCart cart (Product._id product))
                 product quantity)
              Halive1 Hcart1)
    as [Hcart2 Halive2]; [apply addToCart_encode|].
  cbv zeta in Hadd, Hitems. rewrite Hadd in Hcart2.
  split; [done|]. split; [done|]. split; [done|]. split; [|by repeat split].
  rewrite addToCart_new by done. unfold Spec.items_for.
  rewrite filter_app, filter_cons, decide_True by done.
  fold (Spec.items_for (Product._id product) fresh). by rewrite items_for_absent.
Qed.

(** Ink with quantity 7 removed, then added with quantity 2 in the next
    event: the cart holds ink with quantity 2. *)
Lemma removeFromCart_then_addToCart_is_fresh_witness :
  let text := json_text
    "[{'productId':'p1','title':'Ink','price':9.5,'imageUrl':'ink.png','stock':4,'quantity':7},
      {'productId':'p2','title':'Pen','price':2.5,'imageUrl':'pen.png','stock':10,'quantity':3}]" in
  let ink := {| Product._id := js "p1"; Product.title := js "Ink";
                Product.price := 9.5; Product.imageUrl := js "ink.png";
                Product.stock := 4 |} in
  let kept := {| productId := js "p2"; title := js "Pen"; price := 2.5;
                 imageUrl := js "pen.png"; stock := 10; quantity := 3 |} in
  exists added,
    cartItems (run (mount (init (Some text)))
                 [Event [RemoveFromCart (js "p1")]; Event [AddToCart ink (Some 2%float)]]) =
      Raw.encode ([kept] ++ [added]) /\
    quantity added = 2%float.
Proof.
  intros text ink kept.
  destruct (removeFromCart_then_addToCart_is_fresh (mount (init (Some text)))
              [{| productId := js "p1"; title := js "Ink"; price := 9.5;
                  imageUrl := js "ink.png"; stock := 4; quantity := 7 |}; kept]
              [] ink (Some 2%float))
    as (added & Hcart & _ & _ & _ & Hquantity & _).
  - reflexivity.
  - vm_compute. reflexivity.
  - intros item Hin. inversion Hin.
  - exists added. split; [exact Hcart|exact Hquantity].
Defined.

(** C8 fails as stated: a removal and an addition made in one event both
    work on the cart of the same render, so that the addition finds the
    line item still there and adds to its quantity, 7 + 2, where a cart
    without the product gets a line item with quantity 2. *)
Lemma removeFromCart_then_addToCart_in_one_event_counterexample :
  let text := json_text
    "[{'productId':'p1','title':'Ink','price':9.5,'imageUrl':'ink.png','stock':4,'quantity':7},
      {'productId':'p2','title':'Pen','price':2.5,'imageUrl':'pen.png','stock':10,'quantity':3}]" in
  let ink := {| Product._id := js "p1"; Product.title := js "Ink";
                Product.price := 9.5; Product.imageUrl := js "ink.png";
                Product.stock := 4 |} in
  let old := {| productId := js "p1"; title := js "Ink"; price := 9.5;
                imageUrl := js "ink.png"; stock := 4; quantity := 7 |} in
  let kept := {| productId := js "p2"; title := js "Pen"; price := 2.5;
                 imageUrl := js "pen.png"; stock := 10; quantity := 3 |} in
  cartItems (mount (init (Some text))) = Raw.encode [old; kept] /\
  cartItems (step (mount (init (Some text)))
               (Event [RemoveFromCart (js "p1"); AddToCart ink (Some 2%float)])) =
    Raw.encode [Cart.with_quantity old 9%float; kept] /\
  Spec.items_for (js "p1") (Cart.addToCart [] ink (Some 2%float)) =
    [Cart.newItem ink 2%float] /\
  Cart.with_quantity old 9%float <> Cart.newItem ink 2%float.
Proof.
  intros text ink old kept. split; [vm_compute; reflexivity|].
  split; [vm_compute; reflexivity|]. split; [vm_compute; reflexivity|].
  intros Heq. assert (Prim2SF 9 = Prim2SF 2) as Hsf.
  { change (Prim2SF (quantity (Cart.with_quantity old 9)) =
            Prim2SF (quantity (Cart.newItem ink 2))). by rewrite Heq. }
  vm_compute in Hsf. discriminate.
Qed.

End OneCallPerRender.

(** ** One line item per product id *)

Section UniqueProductIds.
Import Js Provider.
Implicit Types (st : state) (text : jsstring) (v item : value) (a : action)
  (elems : list value) (pid : jsstring).

Lemma productId_of_with_quantity props q :
  Spec.productId_of (Raw.with_quantity (VObject props) q) =
  Spec.productId_of (VObject props).
Proof.
  unfold Raw.with_quantity, Spec.productId_of. cbn [spread].
  by rewrite lookup_define.
Qed.

(** What [findIndex] answers on an array of objects: no index when no
    object reads the id, an index otherwise. *)
Lemma findIndex_objects pid elems i :
  Forall (fun item => exists props, item = VObject props) elems -> 0 <= i ->
  exists n,
    Raw.findIndex_from
      (fun x => id ← Get x (js "productId"); Normal (strict_eq_string id pid))
      i elems = Normal n /\
    ((n = -1 /\ Forall (fun item => Spec.productId_of item <> VString pid) elems) \/
     i <= n).
Proof.
  intros Helems. revert i.
  induction Helems as [|item elems [props ->] _ IH]; intros i Hi.
  { exists (-1). split; [done|]. left. by split. }
  cbn [Raw.findIndex_from Get mbind completion_bind].
  destruct (strict_eq_string (lookup_prop (js "productId") props) pid) eqn:Hid.
  - exists i. split; [done|]. right. lia.
  - destruct (IH (i + 1)) as (n & -> & [[-> Hnone]|Hn]); [lia| |].
    + exists (-1). split; [done|]. left. split; [done|]. constructor; [|done].
      cbn [Spec.productId_of]. intros Heq. rewrite Heq in Hid.
      cbn [strict_eq_string] in Hid. by rewrite bool_decide_eq_true_2 in Hid.
    + exists n. split; [done|]. right. lia.
Qed.

Lemma map_from_partial (P : value -> Prop) (R : value -> value -> Prop)
    (f : value -> Z -> completion value) elems i :
  (forall x j, P x ->
     (exists e, f x j = Throw e) \/ (exists y, f x j = Normal y /\ R x y)) ->
  Forall P elems ->
  (exists e, Raw.map_from f i elems = Throw e) \/
  (exists elems', Raw.map_from f i elems = Normal elems' /\ Forall2 R elems elems').
Proof.
  intros Hf Helems. revert i.
  induction Helems as [|item elems Hitem _ IH]; intros i.
  { right. by exists []. }
  cbn [Raw.map_from].
  destruct (Hf item i Hitem) as [[e ->]|(y & -> & Hy)]; [left; by exists e|].
  destruct (IH (i + 1)) as [[e ->]|(ys & -> & Hys)]; [left; by exists e|].
  right. exists (y :: ys). split; [done|]. by constructor.
Qed.

Lemma same_productIds elems elems' :
  Forall2 (fun x y => (exists props, y = VObject props) /\
                      Spec.productId_of y = Spec.productId_of x) elems elems' ->
  Forall (fun item => exists props, item = VObject props) elems' /\
  Spec.productId_of <$> elems' = Spec.productId_of <$> elems.
Proof.
  induction 1 as [|x y elems elems' [Hy Hid] _ [IH1 IH2]]; [done|].
  split; [by constructor|]. by rewrite !fmap_cons, Hid, IH2.
Qed.

Lemma filter_with_sublist pid elems :
  Forall (fun item => exists props, item = VObject props) elems ->
  exists elems',
    Raw.filter_with
      (fun x => id ← Get x (js "productId");
                Normal (negb (strict_eq_string id pid)))
      elems = Normal elems' /\
    elems' `sublist_of` elems /\
    Forall (fun item => exists props, item = VObject props) elems'.
Proof.
  induction 1 as [|item elems [props ->] _ (ys & IH & Hys & Hobjects)];
    [by exists []|].
  cbn [Raw.filter_with]. rewrite IH. cbn [Get mbind completion_bind].
  destruct (negb _); eexists; (split; [done|]).
  - split; [by apply sublist_skip|]. constructor; [by eexists|done].
  - split; [by apply sublist_cons|done].
Qed.

(** The four handlers keep a cart of objects one per product id, when
    they do not throw. *)
Lemma invoke_unique v c v' :
  Spec.unique_productIds v -> invoke v c = Normal v' ->
  Spec.unique_productIds v'.
Proof.
  intros (elems & -> & Helems & Hnd).
  destruct c as [product quantity|pid|pid newQuantity|]; cbn [invoke].
  - unfold Raw.addToCart. cbn [Raw.elements_of mbind completion_bind].
    destruct (findIndex_objects (Product._id product) elems 0 Helems)
      as (n & -> & Hn); [lia|].
    cbn [mbind completion_bind]. destruct (n >? -1) eqn:Hfound.
    + match goal with
      | |- context [Raw.map_from ?f 0 elems] =>
          destruct (map_from_partial
                      (fun item => exists props, item = VObject props)
                      (fun x y => (exists props, y = VObject props) /\
                                  Spec.productId_of y = Spec.productId_of x)
                      f elems 0) as [[e ->]|(elems' & -> & Hsame)];
            [|exact Helems|done|]
      end.
      * intros x j [props ->]. destruct (j =? n); [|right; by eauto].
        cbn [Get mbind completion_bind].
        destruct (add _ _) as [q'|e]; [|left; by exists e].
        right. eexists. split; [done|]. split; [by eexists|].
        apply productId_of_with_quantity.
      * intros [= <-]. apply same_productIds in Hsame as [Hobjects Hids].
        exists elems'. by rewrite Hids.
    + intros [= <-]. rewrite Z.gtb_ltb in Hfound. apply Z.ltb_ge in Hfound.
      destruct Hn as [[-> Hnone]|Hn]; [|lia].
      eexists. split; [done|]. split.
      * apply Forall_app. split; [done|]. constructor; [by eexists|constructor].
      * rewrite fmap_app. apply NoDup_app. split; [done|]. split.
        -- intros id (item & -> & Hitem)%list_elem_of_fmap Hnew.
           apply list_elem_of_singleton in Hnew.
           rewrite Forall_forall in Hnone. by apply (Hnone item).
        -- apply NoDup_singleton.
  - unfold Raw.removeFromCart. cbn [Raw.elements_of mbind completion_bind].
    destruct (filter_with_sublist pid elems Helems)
      as (elems' & -> & Hsub & Hobjects).
    intros [= <-]. exists elems'. split; [done|]. split; [done|].
    eapply sublist_NoDup; [exact Hnd|]. by apply fmap_sublist.
  - unfold Raw.updateQuantity. cbn [Raw.elements_of mbind completion_bind].
    match goal with
    | |- context [Raw.map_from ?f 0 elems] =>
        destruct (map_from_related
                    (fun item => exists props, item = VObject props)
                    (fun x y => (exists props, y = VObject props) /\
                                Spec.productId_of y = Spec.productId_of x)
                    f elems 0) as (elems' & -> & Hsame); [|exact Helems|]
    end.
    + intros x j [props ->]. cbn [Get mbind completion_bind].
      destruct (strict_eq_string _ _); eexists; (split; [done|]).
      * split; [by eexists|]. apply productId_of_with_quantity.
      * split; [by eexists|done].
    + intros [= <-]. apply same_productIds in Hsame as [Hobjects Hids].
      exists elems'. by rewrite Hids.
  - intros [= <-]. exists []. split; [done|]. split; [done|apply NoDup_nil_2].
Qed.

Lemma last_set_unique v calls pending v' :
  Spec.unique_productIds v ->
  (forall w, pending = Some w -> Spec.unique_productIds w) ->
  last_set v calls pending = Some v' ->
  Spec.unique_productIds v'.
Proof.
  intros Hv. revert pending.
  induction calls as [|c calls IH]; intros pending Hpending; simpl.
  - apply Hpending.
  - destruct (invoke v c) as [w|] eqn:Hc; [|apply Hpending].
    apply IH. intros w' [= <-]. by apply (invoke_unique v c).
Qed.

Lemma dispatch_unique stored st calls :
  Spec.unique_so_far stored st -> Spec.unique_so_far stored (dispatch calls st).
Proof.
  intros [Hunique Hunmounted]. unfold dispatch.
  destruct (last_set _ _ _) as [v|] eqn:Hset; [|done].
  destruct (rerender_fields (setCartItems v st)) as (Hc & Hm & Hl & Hstorage).
  split.
  - rewrite Hc. by apply (last_set_unique (cartItems st) calls None).
  - rewrite Hm, Hl. intros Hunm. destruct (Hunmounted Hunm) as [<- Hloading].
    split; [by apply Hstorage|done].
Qed.

Lemma step_unique stored st a :
  Spec.sound_storage stored ->
  Spec.unique_so_far stored st -> Spec.unique_so_far stored (step st a).
Proof.
  intros Hsound Hst. unfold step. destruct (crashed st); [done|].
  destruct a as [|calls]; [|by apply dispatch_unique].
  destruct Hst as [Hunique Hunmounted].
  destruct (mounted st) eqn:Hm.
  { split; [done|]. by rewrite Hm. }
  destruct (Hunmounted eq_refl) as [Hstored Hl].
  destruct (mount_fields st) as [Hcarts Hmounted].
  split; [|by rewrite Hmounted]. rewrite Hcarts, Hl. unfold persist. cbn [negb].
  destruct (restore_fields st) as [_ [-> |(text & Htext & Hparse)]]; [done|].
  apply (Hsound text); [congruence|done].
Qed.

(** C2 (as the code has it). When the stored entry, if it parses at all,
    parses to an array of objects no two of which read the same
    [productId], whatever their other properties and the order of these,
    every state of every run of the provider has such a cart: the four
    handlers keep the cart so, and the first effect installs what was
    stored as it is. *)
Theorem productIds_stay_unique stored actions :
  Spec.sound_storage stored ->
  Spec.unique_productIds (cartItems (run (init stored) actions)).
Proof.
  intros Hsound.
  assert (Spec.unique_so_far stored (run (init stored) actions)) as [Hunique _];
    [|done].
  unfold run. assert (Spec.unique_so_far stored (init stored)) as Hinit.
  { split; [|done]. exists []. split; [done|]. split; [done|apply NoDup_nil_2]. }
  revert Hinit. generalize (init stored).
  induction actions as [|a actions IH]; intros st Hst; [done|].
  apply IH. by apply step_unique.
Qed.

(** A stored cart of two line items, their properties in another order
    than [addToCart] writes them, one with a property the script does not
    know and none with all six; then a run of every handler. *)
Lemma productIds_stay_unique_witness :
  let text := json_text
    "[{'quantity':2,'sku':'A-7','productId':'p1','price':5},{'title':'B','productId':'p3'}]" in
  let pen := {| Product._id := js "p2"; Product.title := js "Pen";
                Product.price := 2.5; Product.imageUrl := js "pen.png";
                Product.stock := 10 |} in
  Spec.unique_productIds
    (cartItems
       (run (init (Some text))
          [Mount; Event [AddToCart pen None]; Event [AddToCart pen (Some 2%float)];
           Event [UpdateQuantity (js "p1") 0%float];
           Event [RemoveFromCart (js "p3")]])).
Proof.
  intros text pen. apply productIds_stay_unique.
  intros text' v [= <-] Hparse. vm_compute in Hparse. injection Hparse as <-.
  eexists. split; [reflexivity|]. split.
  - repeat (constructor; [by eexists|]). constructor.
  - cbn. apply NoDup_cons. split; [|apply NoDup_singleton].
    intros Hin. apply list_elem_of_singleton in Hin. discriminate.
Defined.

(** C2 fails as stated: a stored cart with two line items for one product
    id is restored as it is. *)
Lemma restored_duplicates_counterexample :
  let text := json_text
    "[{'productId':'p1','title':'A','price':5,'imageUrl':'x','stock':3,'quantity':2},
      {'productId':'p1','title':'A','price':5,'imageUrl':'x','stock':3,'quantity':1}]" in
  let first := {| CartLineItem.productId := js "p1"; CartLineItem.title := js "A";
                  CartLineItem.price := 5; CartLineItem.imageUrl := js "x";
                  CartLineItem.stock := 3; CartLineItem.quantity := 2 |} in
  let second := {| CartLineItem.productId := js "p1"; CartLineItem.title := js "A";
                   CartLineItem.price := 5; CartLineItem.imageUrl := js "x";
                   CartLineItem.stock := 3; CartLineItem.quantity := 1 |} in
  crashed (run (init (Some text)) [Mount]) = false /\
  cartItems (run (init (Some text)) [Mount]) = Raw.encode [first; second] /\
  ~ Spec.unique_productIds (cartItems (run (init (Some text)) [Mount])).
Proof.
  intros text first second.
  assert (cartItems (run (init (Some text)) [Mount]) = Raw.encode [first; second])
    as Hcart by (vm_compute; reflexivity).
  split; [vm_compute; reflexivity|]. split; [exact Hcart|].
  rewrite Hcart. intros (elems & Heq & _ & Hnd).
  unfold Raw.encode in Heq. injection Heq as <-.
  apply NoDup_cons in Hnd as [Hfresh _]. apply Hfresh. left.
Qed.

End UniqueProductIds.
